(** * AskTheBridge: question dispatch, cached completion and chat transcript

    A shallow embedding of the dispatch / cache / retry logic and of the
    chat-transcript handling of [app.py], and the properties stated about
    them.

    Python text is modelled by [string]: the UTF-8 bytes of the [str].
    The dictionaries [STATIC_QA], the [st.cache_data] store and
    [st.session_state.users] are finite maps.  Everything outside the
    process (the completion provider, the clock, the database, the
    screen) is part of an explicit [world] that the functions read and
    update. *)

From Stdlib Require Import Ascii String.
From stdpp Require Import base option list strings pretty gmap.

Open Scope string_scope.
Open Scope list_scope.
Open Scope nat_scope.

(** ** Text *)

(** [str.lower] and [str.strip] are Python built-ins whose exact
    behaviour on Unicode text is not needed anywhere below: the program
    is embedded over an arbitrary pair of such functions. *)
Class StrMethods := {
  lower : string → string;
  strip : string → string
}.

(** The ASCII reading of the two built-ins, used to run the model on
    concrete inputs: bytes [A]-[Z] are lowered, the ASCII characters for
    which [str.isspace] holds are stripped, other bytes are left alone. *)
Definition lower_ascii (c : ascii) : ascii :=
  let n := nat_of_ascii c in
  if ((65 <=? n) && (n <=? 90))%nat then ascii_of_nat (n + 32) else c.

Fixpoint lower_bytes (s : string) : string :=
  match s with
  | "" => ""
  | String c s' => String (lower_ascii c) (lower_bytes s')
  end.

Definition isspace (c : ascii) : bool :=
  let n := nat_of_ascii c in
  (((9 <=? n) && (n <=? 13)) || ((28 <=? n) && (n <=? 32)))%nat.

Fixpoint lstrip_bytes (s : string) : string :=
  match s with
  | "" => ""
  | String c s' => if isspace c then lstrip_bytes s' else s
  end.

Definition strip_bytes (s : string) : string :=
  String.rev (lstrip_bytes (String.rev (lstrip_bytes s))).

Definition ascii_methods : StrMethods :=
  {| lower := lower_bytes; strip := strip_bytes |}.

(** [needle in s] on Python strings. *)
Fixpoint contains (needle s : string) : bool :=
  String.prefix needle s ||
  match s with
  | "" => false
  | String _ s' => contains needle s'
  end.

(** ** Data *)

(** An entry of [qa_pairs] / [st.session_state.partner_cache]; the
    ["embedding"] field the latter adds is always [None]. *)
Record qa_pair := { question : string; answer : string }.

(** [msg["role"]] is ["user"] or ["bot"]. *)
Inductive role_t := user | bot.

(** A transcript entry.  [is_static_answer] is [msg.get("is_static_answer")]
    read as a truth value: the key is present (and [True]) only on static
    answers. *)
Record message := {
  role : role_t;
  content : string;
  is_static_answer : bool
}.

Record chat := { title : string; messages : list message }.

(** What one [openai.chat.completions.create(...)] call, followed by the
    extraction of the message content, does inside the [try] block: it
    yields the content or raises an exception whose [str(e)] is [err]. *)
Inductive reply := Returns (text : string) | Raises (err : string).

(** What the screen shows through [st.error] and [st.info]. *)
Inductive notice := Error (text : string) | Info (text : string).

(** ** The world *)

Record world := {
  (** the completion provider: its answer to the [n]-th request of the
      process (counted from 0), given the user text of the request *)
  provider : nat → string → reply;
  (** user texts of the requests sent so far *)
  requests : list string;
  (** arguments of the [time.sleep] calls made so far *)
  slept : list nat;
  (** the [st.cache_data] store of [ask_openai_cached] *)
  cache : gmap string string;
  (** arguments for which the decorated body was run (bookkeeping only) *)
  cache_misses : list string;
  (** [st.session_state.username], [.current_chat_index], [.users] *)
  username : string;
  current_chat_index : option nat;
  users : gmap string (list chat);
  (** the database: whether the [n]-th upsert of the process raises, and
      with which text *)
  database : nat → option string;
  (** the upserts attempted so far: [user_email] and the chat sent *)
  upserts : list (string * chat);
  (** table [user_chats], one row per [(user_email, chat_title)] *)
  user_chats : gmap (string * string) (list message);
  notices : list notice
}.

Definition set_requests (x : list string) (w : world) : world :=
  {| provider := provider w; requests := x; slept := slept w; cache := cache w;
     cache_misses := cache_misses w; username := username w;
     current_chat_index := current_chat_index w; users := users w;
     database := database w; upserts := upserts w;
     user_chats := user_chats w; notices := notices w |}.

Definition set_slept (x : list nat) (w : world) : world :=
  {| provider := provider w; requests := requests w; slept := x; cache := cache w;
     cache_misses := cache_misses w; username := username w;
     current_chat_index := current_chat_index w; users := users w;
     database := database w; upserts := upserts w;
     user_chats := user_chats w; notices := notices w |}.

Definition set_cache (x : gmap string string) (w : world) : world :=
  {| provider := provider w; requests := requests w; slept := slept w; cache := x;
     cache_misses := cache_misses w; username := username w;
     current_chat_index := current_chat_index w; users := users w;
     database := database w; upserts := upserts w;
     user_chats := user_chats w; notices := notices w |}.

Definition set_cache_misses (x : list string) (w : world) : world :=
  {| provider := provider w; requests := requests w; slept := slept w; cache := cache w;
     cache_misses := x; username := username w;
     current_chat_index := current_chat_index w; users := users w;
     database := database w; upserts := upserts w;
     user_chats := user_chats w; notices := notices w |}.

Definition set_current_chat_index (x : option nat) (w : world) : world :=
  {| provider := provider w; requests := requests w; slept := slept w; cache := cache w;
     cache_misses := cache_misses w; username := username w;
     current_chat_index := x; users := users w;
     database := database w; upserts := upserts w;
     user_chats := user_chats w; notices := notices w |}.

Definition set_users (x : gmap string (list chat)) (w : world) : world :=
  {| provider := provider w; requests := requests w; slept := slept w; cache := cache w;
     cache_misses := cache_misses w; username := username w;
     current_chat_index := current_chat_index w; users := x;
     database := database w; upserts := upserts w;
     user_chats := user_chats w; notices := notices w |}.

Definition set_upserts (x : list (string * chat)) (w : world) : world :=
  {| provider := provider w; requests := requests w; slept := slept w; cache := cache w;
     cache_misses := cache_misses w; username := username w;
     current_chat_index := current_chat_index w; users := users w;
     database := database w; upserts := x;
     user_chats := user_chats w; notices := notices w |}.

Definition set_user_chats (x : gmap (string * string) (list message)) (w : world) : world :=
  {| provider := provider w; requests := requests w; slept := slept w; cache := cache w;
     cache_misses := cache_misses w; username := username w;
     current_chat_index := current_chat_index w; users := users w;
     database := database w; upserts := upserts w;
     user_chats := x; notices := notices w |}.

Definition set_notices (x : list notice) (w : world) : world :=
  {| provider := provider w; requests := requests w; slept := slept w; cache := cache w;
     cache_misses := cache_misses w; username := username w;
     current_chat_index := current_chat_index w; users := users w;
     database := database w; upserts := upserts w;
     user_chats := user_chats w; notices := x |}.

(** ** The curated questions and answers ([qa_pairs] in [load_partner_cache]) *)

Definition qa_pairs : list qa_pair := [
  {| question := "My chief stew and chef are in conflict two days before a busy charter. How do I de-escalate this without taking sides or compromising service?";
     answer := "Speak to each individually first: listen, clarify facts, and separate emotion from concrete issues (menus, timing, storage, service style). Restate the shared mission: 'Our job for the next 7 days is to deliver a seamless guest experience; we can revisit personal frustrations after the trip.' Agree on minimum operating rules: service times, handover points, communication channel (e.g. one WhatsApp group, no side channels for ops). Put a simple, written charter schedule in place (service times, special events, provisioning deadlines) and confirm they both sign off. Monitor closely during the first 24 hours of charter and give specific positive feedback when collaboration works ('That breakfast turn-around was spot on, thanks to both of you.')." |};
  {| question := "My rotation and leave plan looked fine on paper, but every season I end up with either short-staffing or burnout. What’s a better way to plan rotations?";
     answer := "Start from guest program + maintenance, not from crew headcount: map peak periods, shipyard periods, crossings, owner weeks, and charters. Build a 12-month coverage matrix: for each month, define minimum safe manning by department (bridge, interior, deck, engineering, galley). Add buffer capacity around refit/yard and long crossings; these are the highest fatigue zones. Use rotation templates (e.g. 2:2, 3:1) but adapt per department; engineers and chefs often need different patterns than deck. Run a stress-test: mark months where >30–35% of the crew are 'new'—if that happens in peak guest periods, adjust hiring or contract dates." |};
  {| question := "We’re about to switch from private to charter under a different flag. What are the most common compliance pitfalls captains miss in that transition?";
     answer := "Safety equipment & certification: ensure all lifesaving appliances, fire systems and documentation match commercial requirements (not just private). ISM/ISPS documentation: verify Safety Management System, drills records, and security plans are current and aligned with the new flag/management company. Working/rest hours: move from 'owner-flexible' to strictly recorded MLC compliance; audit your last 3 months to avoid surprises at inspection. Crew qualifications: check each role’s minimum safe manning certificate and endorsements for commercial operation. Commercial paperwork: charter contracts, VAT handling, passenger limits – coordinate early with management, broker and legal so you’re aligned before the first charter." |};
  {| question := "Port State Control and flag inspectors always seem to find something different. How can I prepare for inspections in a way that’s consistent and less stressful for the crew?";
     answer := "Keep a simple inspection folder (digital + physical) with: certificates, last inspection report, corrective actions, crew lists, drills records and key checklists. Run internal mini-inspections monthly: focus on basic items—LSA, FFA, signage, doors/vents, muster lists, logbooks. Involve crew in the process: assign each head of department 3–5 common findings and make them responsible for 'owning' those areas. After each real inspection, run a short 'lessons learned' debrief and update your checklist; treat it as continuous improvement, not blame. Maintain a calm, transparent tone with inspectors; when they see the ship is organised and cooperative, inspections tend to be smoother." |};
  {| question := "Our planned maintenance system is up to date on paper, but we still get nasty surprises in-season (AC failures, sewage issues, stabilisers). What can we change?";
     answer := "Separate “compliance maintenance” (things you must log) from “reliability maintenance” (things that actually ruin a trip when they fail). Build a “Top 20 Critical Failures” list for your yacht (AC, sewage, stabilisers, generators, tenders, galley key equipment) and add extra inspections there. Use data from past seasons: which systems failed and when? Increase inspection frequency and spares holding for those items. Before peak season, run a Red Team walk-through with engineer + chief stew + deck: ask “What would ruin a guest day if it broke right now?” and act on it. Track not just completed tasks, but unplanned downtime; aim to reduce that season-on-season." |};
  {| question := "I’m choosing between several refit yards for a big paint and machinery job. Beyond the quote, what should I really look at?";
     answer := "Check yard track record with your size and type of vessel—ask for 2–3 recent captains you can speak to directly. Evaluate project management structure: is there a dedicated PM assigned, with clear communication routines and reporting formats? Assess logistics & location (flights, crew housing, visa, weather windows) and include those costs/risks in your comparison. Review quality control processes: acceptance criteria, warranty terms, and how disputes are handled. Visit if possible: walk the yard, look at housekeeping, safety culture and how work is organised; these soft signals often matter more than the brochure." |};
  {| question := "Owner wants a “different” Med season with fewer crowded ports and more unique anchorages, but we must stay safe and practical. How do I approach this?";
     answer := "Start with constraints: yacht draft/LOA, helicopter ops, guest ages, mobility, and any security concerns. Map secondary hubs within each region (e.g. alternatives to St Tropez/Capri/Mykonos) that still have decent provisioning and medical access. Use past AIS and port call data (yours and comparable yachts if available) to avoid patterns everyone else follows. Plan “hero moments” (1–2 special anchorages or off-grid stops) backed by solid weather and escape plans. Present the owner with 2–3 curated itineraries that balance uniqueness with realism—highlighting exactly why each feels different from a classic milk run." |};
  {| question := "We’re under pressure to reduce fuel burn but still maintain ambitious itineraries. What are some practical routing strategies I can use?";
     answer := "Optimise transit speeds: small reductions (e.g. from 14 to 11–12 knots) often save disproportionate fuel over a season. Plan shorter legs with more local clusters of experiences instead of long daily hops. Use weather and current routing to minimise head seas and adverse conditions where possible. Coordinate with the owner/charter broker early to align expectations: show a fuel-optimised itinerary vs a “max distance” one. Log fuel burn vs itinerary in a simple dashboard and share trends with the owner/management; this makes future compromises easier to negotiate." |};
  {| question := "We get very little information about guest preferences before charters. How can I still deliver a personalised experience without annoying the broker or PA?";
     answer := "Create a simple, visually appealing preference sheet that brokers actually want to forward—less text, more checkboxes and examples. Ask for categories rather than specifics: dietary limits, general food styles, activity level, nightlife vs quiet, kids vs adults focus. Prepare modular experiences: a few ready-to-go “themes” (wellness day, water sports day, local culture day, party night) you can adapt on the fly. Use the first 12–24 hours to quietly observe and adjust: meal portions, timing, music volume, favourite spots onboard. Debrief with the broker post-charter, sharing what worked well; over time, that builds a richer picture for repeat clients." |};
  {| question := "The owner’s friends often show up last-minute with no notice. How can I build flexibility into the program without burning out the crew?";
     answer := "Define a “surge plan” with your HoDs: what changes when guest count spikes (service style, turndown, menu complexity, tender schedule). Maintain a basic backup provisioning list with easy, high-quality options that can scale guest numbers quickly. Protect crew core rest hours by temporarily reducing non-critical tasks (deep detailing, non-urgent maintenance) during these spikes. Communicate clearly with the owner/PA about what can and can’t be done last-minute without compromising safety. After each event, review impact on crew fatigue and adjust your surge plan for next time." |};
  {| question := "Our operating budget is always blown by the end of the season, especially in maintenance and provisions. How can I make the numbers more predictable?";
     answer := "Break the budget into 4–6 clear buckets (fuel, port/marina, maintenance, provisions, crew, “owner requests”) with monthly caps. Track “unplanned” vs “planned” spend separately; unplanned is where you’ll find improvement opportunities. Use last 2–3 seasons’ actuals to build a more realistic baseline, then add a defined contingency (e.g. 10–15%) rather than pretending it won’t be used. Share a simple monthly one-pager with the owner/management: big spends, savings and reasons; that builds trust and makes future conversations easier. Make at least one small visible saving initiative per season (e.g. shorepower vs generators where feasible) and show the numbers." |};
  {| question := "Management is cutting the maintenance budget, but I’m worried we’ll pay more later. How do I argue this without sounding difficult?";
     answer := "Translate technical risk into owner-language: tie maintenance cuts directly to “chance of losing charter days” or “trip disruption risk.” Present scenarios: “If we defer X, probability of failure in season is roughly Y; cost of that failure (lost days + emergency yard time) is Z.” Identify low-impact cuts you can accept (cosmetics, non-critical upgrades) to show you’re being cooperative. Propose a phased plan: what you must do this year, what can safely be postponed, and what should be monitored closely. Keep the tone solution-oriented: “Here are 3 options; my professional recommendation is B.”" |};
  {| question := "My owner changes his mind frequently about plans and priorities. How do I manage this without constant chaos on board?";
     answer := "Introduce a simple planning rhythm: e.g. a weekly brief (written or call) where you confirm itinerary, key priorities and any constraints. Summarise decisions back to the owner/PA after each change: “To confirm, we now do X instead of Y, which means Z impact.” Internally, maintain a “stable core” (safety, maintenance, compliance) that doesn’t move, and treat rest as flexible. Build a reputation for being both adaptable and transparent: say “yes” when you can, and clearly explain trade-offs when you can’t. Document major changes in a simple log; this helps avoid blame later and supports your case in future discussions." |};
  {| question := "Management company and I don’t always see eye to eye. How do I keep the relationship constructive but protect the vessel’s interests?";
     answer := "Clarify roles and responsibilities in writing: who decides on what (crew, budget, routing, major works, vendors). Use a regular standing call (e.g. bi-weekly) with a fixed agenda: safety, operations, finance, owner feedback, upcoming decisions. When you disagree, separate facts, risks and opinions; propose options with pros/cons rather than “yes/no.” Copy in the right people (e.g. DPA, fleet manager) for issues that affect compliance and safety – that frames it as a professional concern. Keep your tone consistently calm and professional; over time, being the person who brings structured information and solutions increases your influence." |};
  {| question := "We had a black water failure during charter—nightmare. What can I implement so this never happens again during a guest trip?";
     answer := "Treat black water and grey water as “mission critical”: review design limits, tank capacities, pump redundancy and venting. Implement pre-charter stress tests: simulate full guest load, run all heads, showers and laundry to confirm flows are stable. Create usage guidelines for guests (discreet, elegant signage + crew script) to reduce abuse. Maintain a spares & tools kit specifically for sewage systems and ensure crew are trained to use it. Review with an external specialist after the season if failures persist; design fixes are often cheaper than repeated emergencies." |};
  {| question := "Our stabilisers have become the most unreliable part of the vessel. How do I decide whether to keep repairing or plan for a bigger upgrade?";
     answer := "Log every incident with date, sea state, mode, and impact on guest comfort; patterns matter. Discuss with OEM/service partner: ask for a clear view of expected life, known failure modes and upgrade paths. Cost out the last 2–3 seasons of call-outs, downtime and lost guest days versus an overhaul/upgrade. Consider future itinerary (more crossings? rougher seas?) when evaluating risk. Present management/owner with options (maintain vs major upgrade) including financial and operational implications." |};
  {| question := "I’m a first-time captain on a 50–60m. What are the first 3 systems or processes I should review in detail in my first 90 days?";
     answer := "Safety & compliance: SMS, muster lists, drills records, equipment certificates, and how crew actually behave in drills. Maintenance & critical systems: PMS setup, spares strategy, and condition of generators, stabilisers, sewage, AC and tenders. Crew structure & culture: rotations, handover quality, communication routines, and the captain–HoD leadership dynamic. Make a 90-day plan with 3–5 concrete improvements and review it with management/owner’s rep to align expectations." |};
  {| question := "Owner wants “more use” of the yacht but crew are already stretched. How do I safely increase days in use without losing people or breaking the boat?";
     answer := "Quantify current vs requested days in use and overlay maintenance windows; show where pressure points occur. Propose a phased increase (e.g. +20% days this year) and define what support changes are needed (extra crew, different rotations, bigger maintenance yard period). Use data from past seasons (unplanned downtime, sick days, crew turnover) as arguments, not feelings. Suggest “smart” extra use (shoulder seasons, off-peak charters) rather than stacking more into already crowded months. Agree in writing on minimum maintenance and rest periods that must remain untouched." |};
  {| question := "How can I use data from our operations to have better conversations with the owner about risk, cost and upgrades?";
     answer := "Start small: track 3–5 metrics consistently (days in use, unplanned downtime incidents, fuel burn, major unplanned costs, crew turnover). Present these visually in a simple quarterly one-pager. Use that sheet to frame conversations: “We did X days, had Y incidents, Z unplanned cost – here’s what I recommend for next season.” Link upgrade requests directly to those metrics (e.g. “If we upgrade X, we expect fewer incidents like Y, which cost us €…”). Over time, this shifts conversation from opinions to trend-based decisions." |};
  {| question := "We’re constantly reactive. Is there a simple operational rhythm I can install so the boat feels more in control and less firefighting?";
     answer := "Implement a weekly operations meeting with HoDs: last week’s key issues, coming week’s plan, risks and guest highlights. Add a monthly “big picture” review: budget, maintenance, crew wellbeing, upcoming refit or major changes. Use a shared action list (even a simple spreadsheet) with owners, deadlines and status so nothing is just “in someone’s head.” Reserve protected time in the calendar for drills, training and preventative checks – don’t let them be the first thing cancelled. Stick to this rhythm even in quiet times; consistency is what builds a less reactive culture." |}
].

(** [load_partner_cache]: fills [st.session_state.partner_cache] (initially
    [None]) with the curated pairs, once. *)
Definition load_partner_cache (partner_cache : option (list qa_pair)) : list qa_pair :=
  match partner_cache with
  | None => foldl (λ acc pair, acc ++ [pair]) [] qa_pairs
  | Some pairs => pairs
  end.

(** ** The program *)

Section Program.
Context `{StrMethods}.

(** The dictionary comprehension
    [{pair["question"].lower(): pair["answer"] for pair in partner_cache}]:
    entries are written in list order, a later write to a key replaces
    the earlier one. *)
Definition static_index (partner_cache : list qa_pair) : gmap string string :=
  foldl (λ index pair, <[lower (question pair) := answer pair]> index) ∅ partner_cache.

Definition STATIC_QA : gmap string string :=
  static_index (load_partner_cache None).

(** *** The completion client *)

(** One pass through the [try] block: the request is sent and the
    provider's reply to it comes back. *)
Definition create (question : string) (w : world) : reply * world :=
  (provider w (length (requests w)) question,
   set_requests (requests w ++ [question]) w).

Definition time_sleep (secs : nat) (w : world) : world :=
  set_slept (slept w ++ [secs]) w.

(** ["rate limit" in err.lower() or "429" in err] *)
Definition rate_limited (err : string) : bool :=
  contains "rate limit" (lower err) || contains "429" err.

Definition error_message (err : string) : string := "⚠️ Error: " +:+ err.

Definition too_many_requests : string :=
  "⚠️ The system is receiving too many requests right now. Please try again in a few seconds.".

(** The loop [for attempt in range(3)] over what is left of the range;
    the [return] after the loop is the case of the empty range. *)
Fixpoint attempts (range : list nat) (question : string) (w : world) : string * world :=
  match range with
  | [] => (too_many_requests, w)
  | attempt :: range' =>
      let '(r, w1) := create question w in
      match r with
      | Returns text => (strip text, w1)
      | Raises err =>
          if rate_limited err
          then attempts range' question (time_sleep (5 * (attempt + 1)) w1)
          else (error_message err, w1)
      end
  end.

(** The body of [ask_openai_cached], without its decorator. *)
Definition ask_openai (question : string) (w : world) : string * world :=
  attempts (seq 0 3) question w.

(** [@st.cache_data]: the value stored for the argument is returned
    without running the body; otherwise the body runs and its value is
    stored under the argument as it was passed.  No entry expires. *)
Definition st_cache_data (body : string → world → string * world)
    (arg : string) (w : world) : string * world :=
  match cache w !! arg with
  | Some value => (value, w)
  | None =>
      let '(value, w1) := body arg (set_cache_misses (cache_misses w ++ [arg]) w) in
      (value, set_cache (<[arg := value]> (cache w1)) w1)
  end.

Definition ask_openai_cached : string → world → string * world :=
  st_cache_data ask_openai.

(** *** The dispatcher *)

Definition get_answer (user_input : string) (w : world) : string * world :=
  let key := lower (strip user_input) in
  match STATIC_QA !! key with
  | Some static_answer => (static_answer, w)
  | None => ask_openai_cached user_input w
  end.

(** *** Persistence *)

(** The upsert writes the row of [(user_email, chat_title)]; when it
    raises, the exception is caught and shown with [st.error].  (The
    [updated_at] column, a clock reading, is left out.) *)
Definition save_chat_to_db (user_email : string) (c : chat) (w : world) : world :=
  let w1 := set_upserts (upserts w ++ [(user_email, c)]) w in
  match database w (length (upserts w)) with
  | None => set_user_chats (<[(user_email, title c) := messages c]> (user_chats w1)) w1
  | Some e => set_notices (notices w1 ++ [Error ("Failed to save chat: " +:+ e)]) w1
  end.

(** *** The transcript of the current chat *)

(** [st.session_state.users[username][current_chat_index]].  The list
    object [current_chat["messages"]] is shared by [show_chat_page] and
    [render_chat]: both read and mutate it, here through this path. *)
Definition current_chat (w : world) : option chat :=
  ci ← current_chat_index w;
  chats ← users w !! username w;
  chats !! ci.

Definition current_messages (w : world) : list message :=
  from_option messages [] (current_chat w).

Definition current_title (w : world) : string :=
  from_option title "" (current_chat w).

Definition set_current_messages (msgs : list message) (w : world) : world :=
  set_users
    match current_chat_index w, users w !! username w with
    | Some ci, Some chats =>
        <[username w := alter (λ c, {| title := title c; messages := msgs |}) ci chats]>
          (users w)
    | _, _ => users w
    end w.

(** [messages.append(m)] *)
Definition append (m : message) (w : world) : world :=
  set_current_messages (current_messages w ++ [m]) w.

(** [messages.insert(i, m)] *)
Definition insert_at (i : nat) (m : message) (w : world) : world :=
  set_current_messages (take i (current_messages w) ++ m :: drop i (current_messages w)) w.

(** *** Rendering and the follow-up buttons *)

Definition buttons : list string :=
  ["Ask a Specialist"; "Ask Your Peers"; "Ask on Instagram"; "Ask OpenAI"].

(** [f"{button_text}_{idx}"] *)
Definition widget_key (button_text : string) (idx : nat) : string :=
  button_text +:+ "_" +:+ pretty idx.

(** [st.button(..., key=key)] is true in the script run caused by a click
    on that widget, and in no other. *)
Definition st_button (clicked : option string) (key : string) : bool :=
  bool_decide (clicked = Some key).

(** The body of [if st.button(button_text, key=...)]. *)
Definition on_click (idx : nat) (msg : message) (button_text : string) (w : world) : world :=
  if bool_decide (button_text = "Ask OpenAI") then
    let '(ai_response, w1) := ask_openai_cached (content msg) w in
    let w2 := insert_at (idx + 1)
                {| role := bot; content := ai_response; is_static_answer := false |} w1 in
    save_chat_to_db (username w2)
      {| title := current_title w2; messages := current_messages w2 |} w2
  else
    set_notices (notices w ++ [Info ("You clicked '" +:+ button_text +:+ "'")]) w.

(** The body of [for idx, msg in enumerate(messages)]; what is drawn on
    the page is left out. *)
Definition render_message (clicked : option string) (idx : nat) (msg : message)
    (w : world) : world :=
  match role msg with
  | user => w
  | bot =>
      if is_static_answer msg then
        foldl (λ w button_text,
                 if st_button clicked (widget_key button_text idx)
                 then on_click idx msg button_text w else w)
              w buttons
      else w
  end.

(** The iteration over [enumerate(messages)] reads the list by position
    while the body may insert into it: each step looks up position [idx]
    in the list as it is then, and the loop ends when [idx] is past the
    end.  [None] stands for fuel that ran out before that. *)
Fixpoint render_loop (fuel idx : nat) (clicked : option string) (w : world) : option world :=
  match fuel with
  | 0 => None
  | S fuel' =>
      match current_messages w !! idx with
      | None => Some w
      | Some msg => render_loop fuel' (S idx) clicked (render_message clicked idx msg w)
      end
  end.

Definition render_chat (fuel : nat) (clicked : option string) (w : world) : option world :=
  render_loop fuel 0 clicked w.

(** *** The chat page *)

(** What the user did to cause the script run: sent the form, clicked
    the button of a widget key, or nothing.  (The sidebar is left out.) *)
Inductive event := Submit (user_input : string) | Click (key : string) | Rerun.

Definition clicked_key (ev : event) : option string :=
  match ev with Click key => Some key | _ => None end.

(** The body of [if submitted and user_input.strip() != ""]. *)
Definition on_submit (user_input : string) (w : world) : world :=
  let w1 := append {| role := user; content := strip user_input; is_static_answer := false |} w in
  let key := lower (strip user_input) in
  let w2 :=
    match STATIC_QA !! key with
    | Some static_answer =>
        append {| role := bot; content := static_answer; is_static_answer := true |} w1
    | None =>
        let '(ai_response, w') := ask_openai_cached (strip user_input) w1 in
        append {| role := bot; content := ai_response; is_static_answer := false |} w'
    end in
  save_chat_to_db (username w2)
    {| title := current_title w2; messages := current_messages w2 |} w2.

(** The result of a script run: the world it leaves, an [IndexError]
    at [user_chats[current_chat_index]], or fuel that ran out. *)
Inductive result := Done (w : world) | IndexError | OutOfFuel.

Definition show_chat_page (fuel : nat) (ev : event) (w : world) : result :=
  let user_email := username w in
  let w1 :=
    match users w !! user_email with
    | Some _ => w
    | None => set_users (<[user_email := [{| title := "Chat 1"; messages := [] |}]]> (users w)) w
    end in
  let w2 :=
    match current_chat_index w1 with
    | None => set_current_chat_index (Some 0) w1
    | Some _ => w1
    end in
  match current_chat w2 with
  | None => IndexError
  | Some _ =>
      let w3 :=
        match ev with
        | Submit user_input =>
            if bool_decide (strip user_input ≠ "") then on_submit user_input w2 else w2
        | _ => w2
        end in
      match render_chat fuel (clicked_key ev) w3 with
      | Some w4 => Done w4
      | None => OutOfFuel
      end
  end.

End Program.

(** ** Worlds used to run the model *)

#[local] Existing Instance ascii_methods.

(** A guest with one empty chat, nothing cached, nothing stored. *)
Definition fresh (p : nat → string → reply) (d : nat → option string) : world :=
  {| provider := p; requests := []; slept := []; cache := ∅; cache_misses := [];
     username := "Guest"; current_chat_index := Some 0;
     users := {[ "Guest" := [{| title := "Chat 1"; messages := [] |}] ]};
     database := d; upserts := []; user_chats := ∅; notices := [] |}.

(** A provider that echoes, one that is throttled twice and then
    echoes, one that is always throttled, one that is down. *)
Definition echo : nat → string → reply :=
  λ _ q, Returns ("Re: " +:+ q).
Definition throttled_twice : nat → string → reply :=
  λ n q, if n <? 2 then Raises "Rate limit reached" else Returns (" Re: " +:+ q +:+ " ").
Definition throttled : nat → string → reply :=
  λ _ _, Raises "Error code: 429".
Definition down : nat → string → reply :=
  λ _ _, Raises "Connection error.".
Definition throttled_then_down : nat → string → reply :=
  λ n _, if n <? 1 then Raises "Error code: 429" else Raises "Connection error.".

(** A database that accepts every upsert, and one that refuses them. *)
Definition db_up : nat → option string := λ _, None.
Definition db_down : nat → option string := λ _, Some "timeout".

(** The first curated pair, and a chat in which it has been asked and
    answered and the user has written once more. *)
Definition first_pair : qa_pair :=
  default {| question := ""; answer := "" |} (head qa_pairs).

Definition answered (p : nat → string → reply) (d : nat → option string) : world :=
  set_users
    {[ "Guest" := [{| title := "Chat 1";
                      messages := [ {| role := user; content := question first_pair;
                                       is_static_answer := false |};
                                    {| role := bot; content := answer first_pair;
                                       is_static_answer := true |};
                                    {| role := user; content := "Thanks";
                                       is_static_answer := false |} ] |}] ]}
    (fresh p d).

(** ** Vocabulary of the statements *)

(** The world a script run leaves, when it completes, and the world a
    sequence of user actions leaves, each one causing a script run. *)
Definition world_of (r : result) : option world :=
  match r with Done w => Some w | _ => None end.

Fixpoint script_runs `{StrMethods} (fuel : nat) (events : list event) (w : world)
    : option world :=
  match events with
  | [] => Some w
  | ev :: events' =>
      w' ← world_of (show_chat_page fuel ev w);
      script_runs fuel events' w'
  end.

(** The waits of [k] throttled attempts in a row, the first of them
    being attempt number [first] of the range. *)
Definition backoff (first k : nat) : list nat :=
  map (λ attempt, 5 * (attempt + 1)) (seq first k).

(** The world after [n] requests for [q] and the waits [waits]. *)
Definition after_requests (n : nat) (q : string) (waits : list nat) (w : world) : world :=
  set_slept (slept w ++ waits) (set_requests (requests w ++ replicate n q) w).

(** The provider throttles the next [k] requests for [q]. *)
Definition throttles `{StrMethods} (k : nat) (q : string) (w : world) : Prop :=
  ∀ j, j < k →
    ∃ err, provider w (length (requests w) + j) q = Raises err ∧ rate_limited err = true.

(** The part of the world that says which chat is shown. *)
Definition session (w : world) : string * option nat * gmap string (list chat) :=
  (username w, current_chat_index w, users w).

(** The part of the world the completion client works on. *)
Definition completions (w : world)
    : list string * list nat * gmap string string * list string :=
  (requests w, slept w, cache w, cache_misses w).

(** The part of the world the persistence layer works on. *)
Definition storage (w : world)
    : list (string * chat) * gmap (string * string) (list message) * list notice :=
  (upserts w, user_chats w, notices w).

(** One upsert of the chat [c] for [user_email] took the storage from
    [w] to [w']: the row of [(user_email, title c)] now holds the whole
    transcript, or, when the database refused, the table is as it was
    and the failure is on the screen. *)
Definition saved (user_email : string) (c : chat) (w w' : world) : Prop :=
  upserts w' = upserts w ++ [(user_email, c)] ∧
  match database w (length (upserts w)) with
  | None =>
      user_chats w' = <[(user_email, title c) := messages c]> (user_chats w)
      ∧ notices w' = notices w
  | Some e =>
      user_chats w' = user_chats w
      ∧ notices w' = notices w ++ [Error ("Failed to save chat: " +:+ e)]
  end.

(** The messages of one exchange. *)
Definition user_message (text : string) : message :=
  {| role := user; content := text; is_static_answer := false |}.
Definition static_message (text : string) : message :=
  {| role := bot; content := text; is_static_answer := true |}.
Definition ai_message (text : string) : message :=
  {| role := bot; content := text; is_static_answer := false |}.

(** ** The account pages *)

(** Instants and durations are counted in microseconds, the resolution
    of [datetime]; [timedelta(minutes=m)] is [minutes m]. *)
Definition minutes (m : Z) : Z := (m * 60 * 1000000)%Z.

Definition newline : string := String (ascii_of_nat 10) "".

Definition WELCOME_EMAIL_SUBJECT : string := "Welcome to AskTheBridge".
Definition VERIFICATION_EMAIL_SUBJECT : string := "Verify your AskTheBridge account".
Definition PASSWORD_RESET_EMAIL_SUBJECT : string := "AskTheBridge Password Reset".

(** [WELCOME_EMAIL_BODY.format(email=email)] and the like. *)
Definition WELCOME_EMAIL_BODY (email : string) : string :=
  "Hi " +:+ email +:+ "," +:+ newline +:+ newline
  +:+ "Welcome to AskTheBridge! We are very happy to have you onboard." +:+ newline
  +:+ newline +:+ newline
  +:+ "Warm regards," +:+ newline
  +:+ "The AskTheBridge Team" +:+ newline.

Definition VERIFICATION_EMAIL_BODY (email code : string) : string :=
  "Hi " +:+ email +:+ "," +:+ newline +:+ newline
  +:+ "Your verification code is: " +:+ code +:+ newline
  +:+ "It is valid for 5 minutes." +:+ newline +:+ newline
  +:+ "The AskTheBridge Team" +:+ newline.

Definition PASSWORD_RESET_EMAIL_BODY (email code : string) : string :=
  "Hi " +:+ email +:+ "," +:+ newline +:+ newline
  +:+ "Your password reset code is: " +:+ code +:+ newline
  +:+ "It is valid for 10 minutes." +:+ newline +:+ newline
  +:+ "The AskTheBridge Team" +:+ newline.

(** The calls the account pages make to the outside. *)
Inductive request :=
  | SendMail (to_email subject body : string)
  | SignUp (email password : string)
  | SignInWithPassword (email password : string)
  | UpdateUser (password : string)
  | InsertActivity (user_email action : string)
  | SelectChats (user_email : string).

(** What a [try] block sees of an auth call: a response with a user, a
    response without one (and its [message], empty when there is none),
    or an exception with its text. *)
Inductive auth_reply := HasUser | NoUser (message : string) | AuthRaises (e : string).

(** What [load_chats_from_db] sees of its query: the rows, oldest first,
    each with its title and messages, or an exception. *)
Inductive load_reply := Loaded (rows : list chat) | LoadRaises (e : string).

(** The outside as the account pages meet it during one script run: how
    the mail relay, the auth service and the database answer each call
    ([None] where a call has no result and did not raise). *)
Record outside := {
  relay : string → string → string → option string;
  sign_up : string → string → auth_reply;
  sign_in_with_password : string → string → auth_reply;
  update_user : string → auth_reply;
  insert_activity : string → string → option string;
  select_chats : string → load_reply
}.

(** The part of [st.session_state] the account pages work on, what they
    show with [st.success], and the calls they made. *)
Record front := {
  page : string;
  logged_in : bool;
  verification_codes : gmap string (string * Z);
  password_reset_codes : gmap string (string * Z);
  reset_step : nat;
  temp_signup_email : option string;
  temp_signup_password : option string;
  reset_email_temp : option string;
  successes : list string;
  calls : list request
}.

Definition set_page (x : string) (f : front) : front :=
  {| page := x; logged_in := logged_in f; verification_codes := verification_codes f;
     password_reset_codes := password_reset_codes f; reset_step := reset_step f;
     temp_signup_email := temp_signup_email f;
     temp_signup_password := temp_signup_password f;
     reset_email_temp := reset_email_temp f; successes := successes f; calls := calls f |}.

Definition set_logged_in (x : bool) (f : front) : front :=
  {| page := page f; logged_in := x; verification_codes := verification_codes f;
     password_reset_codes := password_reset_codes f; reset_step := reset_step f;
     temp_signup_email := temp_signup_email f;
     temp_signup_password := temp_signup_password f;
     reset_email_temp := reset_email_temp f; successes := successes f; calls := calls f |}.

Definition set_verification_codes (x : gmap string (string * Z)) (f : front) : front :=
  {| page := page f; logged_in := logged_in f; verification_codes := x;
     password_reset_codes := password_reset_codes f; reset_step := reset_step f;
     temp_signup_email := temp_signup_email f;
     temp_signup_password := temp_signup_password f;
     reset_email_temp := reset_email_temp f; successes := successes f; calls := calls f |}.

Definition set_password_reset_codes (x : gmap string (string * Z)) (f : front) : front :=
  {| page := page f; logged_in := logged_in f; verification_codes := verification_codes f;
     password_reset_codes := x; reset_step := reset_step f;
     temp_signup_email := temp_signup_email f;
     temp_signup_password := temp_signup_password f;
     reset_email_temp := reset_email_temp f; successes := successes f; calls := calls f |}.

Definition set_reset_step (x : nat) (f : front) : front :=
  {| page := page f; logged_in := logged_in f; verification_codes := verification_codes f;
     password_reset_codes := password_reset_codes f; reset_step := x;
     temp_signup_email := temp_signup_email f;
     temp_signup_password := temp_signup_password f;
     reset_email_temp := reset_email_temp f; successes := successes f; calls := calls f |}.

Definition set_temp_signup (email password : string) (f : front) : front :=
  {| page := page f; logged_in := logged_in f; verification_codes := verification_codes f;
     password_reset_codes := password_reset_codes f; reset_step := reset_step f;
     temp_signup_email := Some email;
     temp_signup_password := Some password;
     reset_email_temp := reset_email_temp f; successes := successes f; calls := calls f |}.

Definition set_reset_email_temp (x : string) (f : front) : front :=
  {| page := page f; logged_in := logged_in f; verification_codes := verification_codes f;
     password_reset_codes := password_reset_codes f; reset_step := reset_step f;
     temp_signup_email := temp_signup_email f;
     temp_signup_password := temp_signup_password f;
     reset_email_temp := Some x; successes := successes f; calls := calls f |}.

(** [st.success(text)] *)
Definition st_success (text : string) (f : front) : front :=
  {| page := page f; logged_in := logged_in f; verification_codes := verification_codes f;
     password_reset_codes := password_reset_codes f; reset_step := reset_step f;
     temp_signup_email := temp_signup_email f;
     temp_signup_password := temp_signup_password f;
     reset_email_temp := reset_email_temp f; successes := successes f ++ [text];
     calls := calls f |}.

(** A call goes out. *)
Definition called (r : request) (f : front) : front :=
  {| page := page f; logged_in := logged_in f; verification_codes := verification_codes f;
     password_reset_codes := password_reset_codes f; reset_step := reset_step f;
     temp_signup_email := temp_signup_email f;
     temp_signup_password := temp_signup_password f;
     reset_email_temp := reset_email_temp f; successes := successes f;
     calls := calls f ++ [r] |}.

(** [st.error(text)] *)
Definition st_error (text : string) (w : world) : world :=
  set_notices (notices w ++ [Error text]) w.

Definition set_username (x : string) (w : world) : world :=
  {| provider := provider w; requests := requests w; slept := slept w; cache := cache w;
     cache_misses := cache_misses w; username := x;
     current_chat_index := current_chat_index w; users := users w;
     database := database w; upserts := upserts w;
     user_chats := user_chats w; notices := notices w |}.

(** *** Mail and one-time codes *)

(** [send_email]: any exception of the [try] block is shown and turned
    into [False]. *)
Definition send_email (o : outside) (to_email subject body : string)
    (s : front * world) : bool * (front * world) :=
  let '(f, w) := s in
  let f1 := called (SendMail to_email subject body) f in
  match relay o to_email subject body with
  | None => (true, (f1, w))
  | Some e => (false, (f1, st_error ("Failed to send email: " +:+ e) w))
  end.

(** [send_verification_code], with the code drawn by [secrets.token_hex(3)]
    and the instant read from the clock. *)
Definition send_verification_code (o : outside) (code : string) (now : Z)
    (email : string) (s : front * world) : bool * (front * world) :=
  let '(f, w) := s in
  let expiry := (now + minutes 5)%Z in
  let f1 := set_verification_codes (<[email := (code, expiry)]> (verification_codes f)) f in
  send_email o email VERIFICATION_EMAIL_SUBJECT (VERIFICATION_EMAIL_BODY email code) (f1, w).

Definition send_password_reset_code (o : outside) (code : string) (now : Z)
    (email : string) (s : front * world) : bool * (front * world) :=
  let '(f, w) := s in
  let expiry := (now + minutes 10)%Z in
  let f1 := set_password_reset_codes (<[email := (code, expiry)]> (password_reset_codes f)) f in
  send_email o email PASSWORD_RESET_EMAIL_SUBJECT (PASSWORD_RESET_EMAIL_BODY email code) (f1, w).

(** [verify_code], at the instant [now] read from the clock. *)
Definition verify_code (now : Z) (email code : string) (f : front)
    : (bool * string) * front :=
  match verification_codes f !! email with
  | Some (saved_code, expiry) =>
      if (expiry <? now)%Z then ((false, "Verification code expired"), f)
      else if bool_decide (code = saved_code)
      then ((true, "Verified"),
            set_verification_codes (delete email (verification_codes f)) f)
      else ((false, "Invalid verification code"), f)
  | None => ((false, "Invalid verification code"), f)
  end.

Definition verify_reset_code (now : Z) (email code : string) (f : front)
    : (bool * string) * front :=
  match password_reset_codes f !! email with
  | Some (saved, expiry) =>
      if (expiry <? now)%Z then ((false, "Reset code expired"), f)
      else if bool_decide (code = saved)
      then ((true, "Code verified"),
            set_password_reset_codes (delete email (password_reset_codes f)) f)
      else ((false, "Invalid reset code"), f)
  | None => ((false, "Invalid reset code"), f)
  end.

(** *** Auth and the database *)

(** [log_user_activity] (the [timestamp] column, a clock reading, is
    left out). *)
Definition log_user_activity (o : outside) (user_email action : string)
    (s : front * world) : front * world :=
  let '(f, w) := s in
  let f1 := called (InsertActivity user_email action) f in
  match insert_activity o user_email action with
  | None => (f1, w)
  | Some e => (f1, st_error ("Failed to log activity: " +:+ e) w)
  end.

(** [x or default] on strings. *)
Definition or_else (x default : string) : string :=
  if bool_decide (x = "") then default else x.

(** [supabase_sign_up]; the result is whether a user came back. *)
Definition supabase_sign_up (o : outside) (email password : string)
    (s : front * world) : bool * (front * world) :=
  let '(f, w) := s in
  let f1 := called (SignUp email password) f in
  match sign_up o email password with
  | HasUser => (true, log_user_activity o email "signup" (f1, w))
  | NoUser message => (false, (f1, st_error (or_else message "Signup failed.") w))
  | AuthRaises e => (false, (f1, st_error ("Signup error: " +:+ e) w))
  end.

Definition supabase_sign_in (o : outside) (email password : string)
    (s : front * world) : bool * (front * world) :=
  let '(f, w) := s in
  if bool_decide (email = "") || bool_decide (password = "") then
    (false, (f, st_error "Please provide both email and password." w))
  else
    let f1 := called (SignInWithPassword email password) f in
    match sign_in_with_password o email password with
    | HasUser => (true, log_user_activity o email "login" (f1, w))
    | NoUser message =>
        (false, (f1, st_error (or_else message "Invalid email or password.") w))
    | AuthRaises e => (false, (f1, st_error ("Sign in error: " +:+ e) w))
    end.

Definition supabase_update_password (o : outside) (email new_password : string)
    (s : front * world) : bool * (front * world) :=
  let '(f, w) := s in
  let f1 := called (UpdateUser new_password) f in
  match update_user o new_password with
  | HasUser => (true, log_user_activity o email "password_reset" (f1, w))
  | NoUser _ => (false, (f1, st_error "Could not update password." w))
  | AuthRaises e => (false, (f1, st_error ("Error during password update: " +:+ e) w))
  end.

Definition load_chats_from_db (o : outside) (user_email : string)
    (s : front * world) : list chat * (front * world) :=
  let '(f, w) := s in
  let f1 := called (SelectChats user_email) f in
  match select_chats o user_email with
  | Loaded rows =>
      (foldl (λ chats row, chats ++ [{| title := title row; messages := messages row |}])
             [] rows,
       (f1, w))
  | LoadRaises e => ([], (f1, st_error ("Failed to load chats: " +:+ e) w))
  end.

(** *** The handlers of the login page *)

Definition first_chat : chat := {| title := "Chat 1"; messages := [] |}.

(** [login], the callback of "Sign In". *)
Definition login (o : outside) (email password : string) (s : front * world)
    : front * world :=
  let '(found_user, s1) := supabase_sign_in o email password s in
  if found_user then
    let '(chats, (f2, w2)) := load_chats_from_db o email s1 in
    let chats' := if bool_decide (length chats = 0) then chats ++ [first_chat] else chats in
    (set_page "chat" (set_logged_in true f2),
     set_current_chat_index (Some 0)
       (set_users (<[email := chats']> (users w2)) (set_username email w2)))
  else s1.

(** [guest_login], the callback of "Continue as Guest". *)
Definition guest_login (s : front * world) : front * world :=
  let '(f, w) := s in
  let w1 := set_username "Guest" w in
  let w2 := match users w1 !! "Guest" with
            | Some _ => w1
            | None => set_users (<["Guest" := [first_chat]]> (users w1)) w1
            end in
  (set_page "chat" (set_logged_in true f), set_current_chat_index (Some 0) w2).

(** [signup], the callback of "Sign Up". *)
Definition signup (o : outside) (code : string) (now : Z)
    (new_email new_password : string) (s : front * world) : front * world :=
  let '(f, w) := s in
  if bool_decide (new_email = "") || bool_decide (new_password = "") then
    (f, st_error "Provide email & password" w)
  else
    let '(sent, (f1, w1)) := send_verification_code o code now new_email s in
    if sent then
      (st_success "Verification code sent!"
         (set_temp_signup new_email new_password (set_page "verify" f1)), w1)
    else (f1, w1).

(** *** The verification page *)

(** [verify], the callback of "Verify", for the email and password the
    page took from the session and the code typed in. *)
Definition verify (o : outside) (now : Z) (email password code : string)
    (s : front * world) : front * world :=
  let '(f, w) := s in
  let '((valid, msg), f1) := verify_code now email code f in
  if valid then
    let '(found_user, s2) := supabase_sign_up o email password (f1, w) in
    if found_user then
      let '(_, (f3, w3)) :=
        send_email o email WELCOME_EMAIL_SUBJECT (WELCOME_EMAIL_BODY email) s2 in
      (set_page "login" (st_success "Account verified! You can now log in." f3), w3)
    else (s2.1, st_error "Signup failed." s2.2)
  else (f1, st_error msg w).

(** *** The password reset page *)

(** What the user did on the page: asked for a code, sent the code and a
    new password, went back, or nothing. *)
Inductive reset_event :=
  | SendResetCode (reset_email : string)
  | ResetPassword (code new_password : string)
  | BackToLogin
  | NoReset.

(** [show_reset_password_page]; [token] and [now] are what
    [secrets.token_hex(3)] and the clock give during the run.  A button
    exists only in its step.  [None] stands for the [AttributeError] of
    a missing [reset_email_temp]. *)
Definition show_reset_password_page (o : outside) (token : string) (now : Z)
    (ev : reset_event) (s : front * world) : option (front * world) :=
  let '(f, w) := s in
  let step := reset_step f in
  let after_step :=
    if bool_decide (step = 1) then
      match ev with
      | SendResetCode reset_email =>
          if bool_decide (reset_email = "") then Some (f, st_error "Enter your email" w)
          else
            let '(sent, (f1, w1)) := send_password_reset_code o token now reset_email s in
            if sent then
              Some (st_success "Reset code sent! Check your email."
                      (set_reset_email_temp reset_email (set_reset_step 2 f1)), w1)
            else Some (f1, w1)
      | _ => Some s
      end
    else if bool_decide (step = 2) then
      match ev with
      | ResetPassword code new_password =>
          match reset_email_temp f with
          | None => None
          | Some email_to_reset =>
              let '((valid, msg), f1) := verify_reset_code now email_to_reset code f in
              if valid then
                let '(success, (f2, w2)) :=
                  supabase_update_password o email_to_reset new_password (f1, w) in
                if success then
                  Some (set_reset_step 1
                          (set_page "login"
                             (st_success "Password reset successfully! You can now log in." f2)),
                        w2)
                else Some (f2, st_error "Could not reset password." w2)
              else Some (f1, st_error msg w)
          end
      | _ => Some s
      end
    else Some s in
  match after_step, ev with
  | Some (f', w'), BackToLogin => Some (set_reset_step 1 (set_page "login" f'), w')
  | r, _ => r
  end.

(** *** The sidebar of the chat page *)

(** The body of [if st.button("🆕 New Chat")], where [user_chats] is
    [st.session_state.users.get(user_email, [])]: the list kept for the
    user, or a new list kept nowhere. *)
Definition new_chat (w : world) : world :=
  match users w !! username w with
  | Some user_chats =>
      let new_title := "Chat " +:+ pretty (length user_chats + 1) in
      let user_chats' := user_chats ++ [{| title := new_title; messages := [] |}] in
      set_current_chat_index (Some (length user_chats' - 1))
        (set_users (<[username w := user_chats']> (users w)) w)
  | None => set_current_chat_index (Some 0) w
  end.

(** The body of [if st.button(chat["title"], key=f"chat_{idx}")]. *)
Definition select_chat (idx : nat) (w : world) : world :=
  set_current_chat_index (Some idx) w.

(** The titles "Chat 1", ..., "Chat n", in this order. *)
Definition numbered (chats : list chat) : Prop :=
  map title chats = map (λ n, "Chat " +:+ pretty n) (seq 1 (length chats)).

(** The session as the script first sets it up, and an outside in which
    every call succeeds (no chats stored yet), one whose mail relay is
    down, and one whose auth service turns every request down. *)
Definition initial_front : front :=
  {| page := "login"; logged_in := false; verification_codes := ∅;
     password_reset_codes := ∅; reset_step := 1;
     temp_signup_email := None; temp_signup_password := None;
     reset_email_temp := None; successes := []; calls := [] |}.

Definition all_well : outside :=
  {| relay := λ _ _ _, None; sign_up := λ _ _, HasUser;
     sign_in_with_password := λ _ _, HasUser; update_user := λ _, HasUser;
     insert_activity := λ _ _, None; select_chats := λ _, Loaded [] |}.

Definition relay_down : outside :=
  {| relay := λ _ _ _, Some "Connection refused"; sign_up := λ _ _, HasUser;
     sign_in_with_password := λ _ _, HasUser; update_user := λ _, HasUser;
     insert_activity := λ _ _, None; select_chats := λ _, Loaded [] |}.

Definition auth_refuses : outside :=
  {| relay := λ _ _ _, None; sign_up := λ _ _, NoUser "Password too short";
     sign_in_with_password := λ _ _, NoUser ""; update_user := λ _, NoUser "";
     insert_activity := λ _ _, None; select_chats := λ _, Loaded [] |}.

Definition chats_unreachable : outside :=
  {| relay := λ _ _ _, None; sign_up := λ _ _, HasUser;
     sign_in_with_password := λ _ _, HasUser; update_user := λ _, HasUser;
     insert_activity := λ _ _, None; select_chats := λ _, LoadRaises "timeout" |}.

(** A chat in which a short static answer stands second of three
    messages. *)
Definition aye : world :=
  set_users
    {[ "Guest" := [{| title := "Chat 1";
                      messages := [ {| role := user; content := "Ready?";
                                       is_static_answer := false |};
                                    {| role := bot; content := "Aye";
                                       is_static_answer := true |};
                                    {| role := user; content := "Thanks";
                                       is_static_answer := false |} ] |}] ]}
    (fresh echo db_up).

(** A guest for whom an answer to "Hi" is cached; a signed-in user whose
    chats are "Chat 1" and "Chat 3"; a visitor to whom a verification
    code and a reset code have just been sent at instant 0. *)
Definition greeted : world :=
  set_cache {[ "Hi" := "Hello!" ]} (fresh echo db_up).

Definition two_chats : world :=
  set_users
    {[ "Guest" := [ {| title := "Chat 1"; messages := [] |};
                    {| title := "Chat 3";
                       messages := [ {| role := user; content := "Any berth in Monaco?";
                                        is_static_answer := false |} ] |} ] ]}
    (fresh echo db_up).

Definition visitor : front * world := (initial_front, fresh echo db_up).

Definition code_sent : front * world :=
  (send_verification_code relay_down "a1b2c3" 0 "ann@example.com" visitor).2.

Definition reset_asked : front * world :=
  default visitor
    (show_reset_password_page all_well "d4e5f6" 0 (SendResetCode "ann@example.com") visitor).

(** *** The key of the static index, in the words of the specification *)

(** "Normalization: trim surrounding whitespace, lowercase": the key the
    specification gives to an entry of the static index and to an
    input.  The lookups of the code compute it for the input
    ([user_input.strip().lower()]); the comprehension that builds the
    index only lowers the question ([static_index]). *)
Definition spec_normalize `{StrMethods} (text : string) : string :=
  lower (strip text).




(** ** Worlds are determined by their fields *)

Lemma world_ext (w w' : world) :
  provider w = provider w' → requests w = requests w' → slept w = slept w' →
  cache w = cache w' → cache_misses w = cache_misses w' →
  username w = username w' → current_chat_index w = current_chat_index w' →
  users w = users w' → database w = database w' → upserts w = upserts w' →
  user_chats w = user_chats w' → notices w = notices w' → w = w'.
Proof. destruct w, w'; simpl; intros; subst; reflexivity. Qed.

Ltac world_eq :=
  apply world_ext; simpl; try reflexivity;
  rewrite <- ?app_assoc; simpl; try reflexivity.

(** ** The static index *)

Section Index.
Context `{StrMethods}.

Lemma load_partner_cache_None : load_partner_cache None = qa_pairs.
Proof. reflexivity. Qed.

Lemma static_index_snoc (pairs : list qa_pair) (pair : qa_pair) :
  static_index (pairs ++ [pair])
  = <[lower (question pair) := answer pair]> (static_index pairs).
Proof. unfold static_index. by rewrite foldl_app. Qed.

(** The entry found under a key is the last one written to it. *)
Lemma static_index_last (before after : list qa_pair) (e : qa_pair) :
  (∀ e', e' ∈ after → lower (question e') ≠ lower (question e)) →
  static_index (before ++ e :: after) !! lower (question e) = Some (answer e).
Proof.
  induction after as [|e' after IH] using rev_ind; intros Hafter.
  - rewrite static_index_snoc. apply lookup_insert_eq.
  - replace (before ++ e :: after ++ [e']) with ((before ++ e :: after) ++ [e'])
      by (by rewrite <- app_assoc).
    rewrite static_index_snoc, lookup_insert_ne.
    + apply IH. intros e'' Hin. apply Hafter, elem_of_app. by left.
    + apply Hafter, elem_of_app. right. by apply list_elem_of_singleton.
Qed.

(** A key nobody wrote is absent, and conversely. *)
Lemma static_index_None (pairs : list qa_pair) (key : string) :
  static_index pairs !! key = None ↔ ∀ e, e ∈ pairs → lower (question e) ≠ key.
Proof.
  induction pairs as [|e pairs IH] using rev_ind.
  - split; [intros _ e He; inversion He | intros _; apply lookup_empty].
  - rewrite static_index_snoc. split.
    + intros Hnone e' [Hin | ->%list_elem_of_singleton]%elem_of_app.
      * apply IH; [|done]. destruct (decide (lower (question e) = key)) as [Heq|Hne].
        -- subst key. by rewrite lookup_insert_eq in Hnone.
        -- by rewrite lookup_insert_ne in Hnone.
      * intros Heq. subst key. by rewrite lookup_insert_eq in Hnone.
    + intros Hall. rewrite lookup_insert_ne.
      * apply IH. intros e' Hin. apply Hall, elem_of_app. by left.
      * apply Hall, elem_of_app. right. by apply list_elem_of_singleton.
Qed.

Lemma static_index_NoDup (pairs : list qa_pair) (e : qa_pair) :
  NoDup (map (λ p, lower (question p)) pairs) → e ∈ pairs →
  static_index pairs !! lower (question e) = Some (answer e).
Proof.
  intros Hnodup [before [after ->]]%list_elem_of_split.
  apply static_index_last. intros e' Hin Heq.
  rewrite map_app in Hnodup. simpl in Hnodup.
  apply NoDup_app in Hnodup as (_ & _ & Hnodup).
  apply NoDup_cons in Hnodup as [Hnotin _].
  apply Hnotin. rewrite <- Heq.
  apply (list_elem_of_fmap_2 (λ p, lower (question p))), Hin.
Qed.

(** On a question without surrounding blanks the key of the specification
    is the key the code writes. *)
Lemma spec_normalize_trimmed (text : string) :
  strip text = text → spec_normalize text = lower text.
Proof. unfold spec_normalize. by intros ->. Qed.

(** So on a table whose questions have no surrounding blanks the index
    can be read with the keys of the specification: the last entry of a
    key is the one found under it, and with distinct keys every entry is
    found. *)
Lemma static_index_trimmed_last (before after : list qa_pair) (e : qa_pair) :
  (∀ p, p ∈ before ++ e :: after → strip (question p) = question p) →
  (∀ e', e' ∈ after → spec_normalize (question e') ≠ spec_normalize (question e)) →
  static_index (before ++ e :: after) !! spec_normalize (question e) = Some (answer e).
Proof.
  intros Htrimmed Hafter.
  assert (e ∈ before ++ e :: after) as He by (apply elem_of_app; right; left).
  rewrite (spec_normalize_trimmed _ (Htrimmed e He)).
  apply static_index_last. intros e' Hin Heq. apply (Hafter e' Hin).
  assert (e' ∈ before ++ e :: after) as He' by (apply elem_of_app; right; by right).
  by rewrite (spec_normalize_trimmed _ (Htrimmed e' He')),
             (spec_normalize_trimmed _ (Htrimmed e He)).
Qed.

Lemma static_index_trimmed_NoDup (pairs : list qa_pair) (e : qa_pair) :
  (∀ p, p ∈ pairs → strip (question p) = question p) →
  NoDup (map (λ p, spec_normalize (question p)) pairs) → e ∈ pairs →
  static_index pairs !! spec_normalize (question e) = Some (answer e).
Proof.
  intros Htrimmed Hnodup He.
  rewrite (spec_normalize_trimmed _ (Htrimmed e He)).
  apply static_index_NoDup; [|done].
  replace (map (λ p, lower (question p)) pairs)
    with (map (λ p, spec_normalize (question p)) pairs); [done|].
  apply map_ext_in. intros p Hp. apply spec_normalize_trimmed, Htrimmed.
  by apply list_elem_of_In.
Qed.

End Index.

(** ** The completion client *)

Section Client.
Context `{StrMethods}.

Lemma after_requests_0 (q : string) (w : world) : after_requests 0 q [] w = w.
Proof. unfold after_requests. world_eq; apply app_nil_r. Qed.

(** Throttled attempts: each one sends the request, waits, and leaves
    the rest of the range to be tried. *)
Lemma attempts_throttled (k : nat) :
  ∀ first len q w, k ≤ len → throttles k q w →
    attempts (seq first len) q w
    = attempts (seq (first + k) (len - k)) q (after_requests k q (backoff first k) w).
Proof.
  induction k as [|k IH]; intros first len q w Hlen Hthr.
  - by rewrite Nat.add_0_r, Nat.sub_0_r, after_requests_0.
  - destruct len as [|len]; [lia|].
    destruct (Hthr 0) as (err & Herr & Hrate); [lia|].
    rewrite Nat.add_0_r in Herr.
    cbn [seq attempts create]. rewrite Herr, Hrate.
    rewrite IH; [|lia|].
    + replace (S first + k) with (first + S k) by lia.
      replace (len - k) with (S len - S k) by lia.
      f_equal. unfold after_requests, backoff, time_sleep. world_eq.
    + intros j Hj. destruct (Hthr (S j)) as (e & He & Hr); [lia|].
      exists e. split; [|done]. simpl. rewrite length_app. simpl.
      by replace (length (requests w) + 1 + j) with (length (requests w) + S j) by lia.
Qed.

(** Whatever the provider does, a run of the loop only sends requests
    for the question (at most one per element of the range) and waits. *)
Lemma attempts_effect (range : list nat) :
  ∀ q w, ∃ n waits, n ≤ length range ∧ (range ≠ [] → 1 ≤ n) ∧
    (attempts range q w).2 = after_requests n q waits w.
Proof.
  induction range as [|attempt range IH]; intros q w.
  - exists 0, []. rewrite after_requests_0. by split_and!.
  - cbn [attempts create].
    destruct (provider w (length (requests w)) q) as [text|err].
    + exists 1, []. split_and!; simpl; [lia|lia|]. unfold after_requests. world_eq.
      by rewrite app_nil_r.
    + destruct (rate_limited err).
      * destruct (IH q (time_sleep (5 * (attempt + 1))
                          (set_requests (requests w ++ [q]) w))) as (n & waits & Hn & _ & ->).
        exists (S n), (5 * (attempt + 1) :: waits).
        split_and!; simpl; [lia|lia|]. unfold after_requests, time_sleep. world_eq.
      * exists 1, []. split_and!; simpl; [lia|lia|]. unfold after_requests. world_eq.
        by rewrite app_nil_r.
Qed.

(** Every way out of the loop hands back a string: the trimmed reply,
    the text of an error that is not a rate-limit error, or the fixed
    message. *)
Lemma attempts_result (range : list nat) :
  ∀ q w,
    (attempts range q w).1 = too_many_requests
    ∨ (∃ text, (attempts range q w).1 = strip text)
    ∨ (∃ err, rate_limited err = false ∧ (attempts range q w).1 = error_message err).
Proof.
  induction range as [|attempt range IH]; intros q w; [by left|].
  cbn [attempts create].
  destruct (provider w (length (requests w)) q) as [text|err].
  - right. left. by exists text.
  - destruct (rate_limited err) eqn:Hrate; [apply IH|].
    right. right. by exists err.
Qed.

(** The loop neither reads nor writes the chats. *)
Lemma attempts_set_users (x : gmap string (list chat)) (range : list nat) :
  ∀ q w, attempts range q (set_users x w)
         = ((attempts range q w).1, set_users x (attempts range q w).2).
Proof.
  induction range as [|attempt range IH]; intros q w; [done|].
  cbn [attempts create]. simpl.
  destruct (provider w (length (requests w)) q) as [text|err]; [done|].
  destruct (rate_limited err); [|done].
  apply (IH q (time_sleep (5 * (attempt + 1)) (set_requests (requests w ++ [q]) w))).
Qed.

Lemma ask_openai_cached_set_users (x : gmap string (list chat)) (q : string) (w : world) :
  ask_openai_cached q (set_users x w)
  = ((ask_openai_cached q w).1, set_users x (ask_openai_cached q w).2).
Proof.
  unfold ask_openai_cached, st_cache_data. simpl.
  destruct (cache w !! q) as [value|]; [done|].
  unfold ask_openai.
  pose proof (attempts_set_users x (seq 0 3) q
                (set_cache_misses (cache_misses w ++ [q]) w)) as Hx.
  change (set_cache_misses (cache_misses w ++ [q]) (set_users x w))
    with (set_users x (set_cache_misses (cache_misses w ++ [q]) w)).
  rewrite Hx.
  by destruct (attempts (seq 0 3) q (set_cache_misses (cache_misses w ++ [q]) w)).
Qed.

(** A hit returns the stored value and touches nothing. *)
Lemma ask_openai_cached_hit (q value : string) (w : world) :
  cache w !! q = Some value → ask_openai_cached q w = (value, w).
Proof. intros Hhit. unfold ask_openai_cached, st_cache_data. by rewrite Hhit. Qed.

(** A miss runs the body once: between one and three requests for the
    question, the waits between them, and the value stored under the
    argument. *)
Lemma ask_openai_cached_miss (q : string) (w : world) :
  cache w !! q = None →
  ∃ n waits, 1 ≤ n ≤ 3 ∧
    (ask_openai_cached q w).2
    = set_cache (<[q := (ask_openai_cached q w).1]> (cache w))
        (set_cache_misses (cache_misses w ++ [q]) (after_requests n q waits w)).
Proof.
  intros Hmiss. unfold ask_openai_cached, st_cache_data, ask_openai. rewrite Hmiss.
  destruct (attempts_effect (seq 0 3) q (set_cache_misses (cache_misses w ++ [q]) w))
    as (n & waits & Hn & Hpos & Heff).
  destruct (attempts (seq 0 3) q (set_cache_misses (cache_misses w ++ [q]) w))
    as [value w1]. simpl in *. subst w1.
  exists n, waits. split; [split; [by apply Hpos | done]|].
  unfold after_requests. world_eq.
Qed.

(** After a call the value returned is the one stored for the argument. *)
Lemma ask_openai_cached_stored (q : string) (w : world) :
  cache (ask_openai_cached q w).2 !! q = Some (ask_openai_cached q w).1.
Proof.
  destruct (cache w !! q) as [value|] eqn:Hq.
  - by rewrite (ask_openai_cached_hit q value w Hq).
  - destruct (ask_openai_cached_miss q w Hq) as (n & waits & _ & ->). simpl.
    apply lookup_insert_eq.
Qed.

Lemma ask_openai_cached_recorded (q : string) (w : world) :
  cache w !! q = None →
  cache_misses (ask_openai_cached q w).2 = cache_misses w ++ [q]
  ∧ cache (ask_openai_cached q w).2 = <[q := (ask_openai_cached q w).1]> (cache w).
Proof. intros Hq. by destruct (ask_openai_cached_miss q w Hq) as (n & waits & _ & ->). Qed.

End Client.

(** ** The transcript *)

Section Transcript.
Context `{StrMethods}.

Lemma current_chat_session (w w' : world) :
  session w = session w' → current_chat w = current_chat w'.
Proof. unfold session, current_chat. intros [= -> -> ->]. done. Qed.

Lemma current_chat_set_current_messages (msgs : list message) (c : chat) (w : world) :
  current_chat w = Some c →
  current_chat (set_current_messages msgs w) = Some {| title := title c; messages := msgs |}.
Proof.
  unfold current_chat, set_current_messages. simpl.
  destruct (current_chat_index w) as [ci|]; [|done]. simpl.
  destruct (users w !! username w) as [chats|]; [|done]. simpl.
  intros Hc. rewrite lookup_insert_eq. simpl.
  by rewrite list_lookup_alter_eq, Hc.
Qed.

Lemma current_messages_set (msgs : list message) (c : chat) (w : world) :
  current_chat w = Some c → current_messages (set_current_messages msgs w) = msgs.
Proof.
  intros Hc. unfold current_messages.
  by rewrite (current_chat_set_current_messages msgs c w Hc).
Qed.

Lemma current_title_set (msgs : list message) (c : chat) (w : world) :
  current_chat w = Some c → current_title (set_current_messages msgs w) = title c.
Proof.
  intros Hc. unfold current_title.
  by rewrite (current_chat_set_current_messages msgs c w Hc).
Qed.

(** Writing the transcript twice leaves the second version. *)
Lemma set_current_messages_twice (msgs1 msgs2 : list message) (w : world) :
  set_current_messages msgs2 (set_current_messages msgs1 w) = set_current_messages msgs2 w.
Proof.
  unfold set_current_messages. simpl.
  destruct (current_chat_index w) as [ci|]; [|done].
  destruct (users w !! username w) as [chats|] eqn:Hchats; simpl.
  - rewrite lookup_insert_eq, insert_insert_eq.
    by rewrite list_alter_alter_eq.
  - by rewrite Hchats.
Qed.

(** The completion client leaves the session and the storage alone. *)
Lemma ask_openai_cached_session (q : string) (w : world) :
  session (ask_openai_cached q w).2 = session w.
Proof.
  destruct (cache w !! q) as [value|] eqn:Hq.
  - by rewrite (ask_openai_cached_hit q value w Hq).
  - by destruct (ask_openai_cached_miss q w Hq) as (n & waits & _ & ->).
Qed.

Lemma ask_openai_cached_storage (q : string) (w : world) :
  storage (ask_openai_cached q w).2 = storage w
  ∧ database (ask_openai_cached q w).2 = database w.
Proof.
  destruct (cache w !! q) as [value|] eqn:Hq.
  - by rewrite (ask_openai_cached_hit q value w Hq).
  - by destruct (ask_openai_cached_miss q w Hq) as (n & waits & _ & ->).
Qed.

(** It does not see the transcript either: asking after a change of the
    transcript is asking before it. *)
Lemma ask_openai_cached_set_current_messages (msgs : list message) (q : string) (w : world) :
  ask_openai_cached q (set_current_messages msgs w)
  = ((ask_openai_cached q w).1, set_current_messages msgs (ask_openai_cached q w).2).
Proof.
  unfold set_current_messages at 1. rewrite ask_openai_cached_set_users.
  f_equal. unfold set_current_messages.
  pose proof (ask_openai_cached_session q w) as [= -> -> ->]. done.
Qed.

End Transcript.

(** ** Persistence and the form *)

Section Page.
Context `{StrMethods}.

Lemma save_chat_to_db_frame (user_email : string) (c : chat) (w : world) :
  session (save_chat_to_db user_email c w) = session w
  ∧ completions (save_chat_to_db user_email c w) = completions w.
Proof. unfold save_chat_to_db. by destruct (database w (length (upserts w))). Qed.

Lemma save_chat_to_db_saved (user_email : string) (c : chat) (w : world) :
  saved user_email c w (save_chat_to_db user_email c w).
Proof.
  unfold saved, save_chat_to_db.
  by destruct (database w (length (upserts w))).
Qed.

Lemma current_chat_save (user_email : string) (c : chat) (w : world) :
  current_chat (save_chat_to_db user_email c w) = current_chat w.
Proof. apply current_chat_session, save_chat_to_db_frame. Qed.

(** The form on a curated question: two appends, then one upsert. *)
Lemma on_submit_static (user_input static_answer : string) (c : chat) (w : world) :
  current_chat w = Some c →
  STATIC_QA !! lower (strip user_input) = Some static_answer →
  let msgs := messages c ++ [user_message (strip user_input); static_message static_answer] in
  on_submit user_input w
  = save_chat_to_db (username w) {| title := title c; messages := msgs |}
      (set_current_messages msgs w).
Proof.
  intros Hc Hstatic. unfold on_submit, append. rewrite Hstatic.
  assert (current_messages w = messages c) as -> by (unfold current_messages; by rewrite Hc).
  rewrite (current_messages_set _ c w Hc), set_current_messages_twice.
  rewrite (current_messages_set _ c w Hc), (current_title_set _ c w Hc).
  simpl. by rewrite <- app_assoc.
Qed.

(** The form on any other text: the answer comes from the cached client,
    asked the trimmed text. *)
Lemma on_submit_dynamic (user_input : string) (c : chat) (w : world) :
  current_chat w = Some c →
  STATIC_QA !! lower (strip user_input) = None →
  let asked := ask_openai_cached (strip user_input) w in
  let msgs := messages c ++ [user_message (strip user_input); ai_message asked.1] in
  on_submit user_input w
  = save_chat_to_db (username w) {| title := title c; messages := msgs |}
      (set_current_messages msgs asked.2).
Proof.
  intros Hc Hdyn. unfold on_submit, append. rewrite Hdyn.
  assert (current_messages w = messages c) as -> by (unfold current_messages; by rewrite Hc).
  rewrite ask_openai_cached_set_current_messages.
  assert (current_chat (ask_openai_cached (strip user_input) w).2 = Some c) as Hc'.
  { rewrite <- Hc. apply current_chat_session, ask_openai_cached_session. }
  rewrite (current_messages_set _ c _ Hc'), set_current_messages_twice.
  rewrite (current_messages_set _ c _ Hc'), (current_title_set _ c _ Hc').
  pose proof (ask_openai_cached_session (strip user_input) w) as [= Hu _ _].
  simpl. rewrite Hu. by rewrite <- app_assoc.
Qed.

Lemma saved_transfer (user_email : string) (c : chat) (w0 w w' : world) :
  storage w0 = storage w → database w0 = database w →
  saved user_email c w0 w' → saved user_email c w w'.
Proof. unfold saved, storage. by intros [= -> -> ->] ->. Qed.

(** What the form leaves behind on a text that misses the static index. *)
Lemma on_submit_asked (user_input : string) (c : chat) (w : world) :
  current_chat w = Some c →
  STATIC_QA !! lower (strip user_input) = None →
  completions (on_submit user_input w)
  = completions (ask_openai_cached (strip user_input) w).2
  ∧ is_Some (current_chat (on_submit user_input w)).
Proof.
  intros Hc Hdyn. rewrite (on_submit_dynamic user_input c w Hc Hdyn). simpl.
  set (asked := ask_openai_cached (strip user_input) w).
  set (msgs := messages c ++ _). split.
  - by destruct (save_chat_to_db_frame (username w) {| title := title c; messages := msgs |}
                   (set_current_messages msgs asked.2)) as [_ ->].
  - rewrite current_chat_save.
    erewrite current_chat_set_current_messages; [done|].
    rewrite <- Hc. apply current_chat_session, ask_openai_cached_session.
Qed.

End Page.

(** ** Inserting into the transcript *)

Section Insertion.
Context {A : Type}.
Implicit Types (l : list A) (x : A).

(** [l.insert(n, x)] for [n] within the list: [x] is at position [n], what
    was before keeps its position, what was at [n] or after moves one
    position up. *)
Lemma inserted_length l x n :
  n ≤ length l → length (take n l ++ x :: drop n l) = length l + 1.
Proof. intros Hn. rewrite length_app, length_take_le by done. simpl. rewrite length_drop. lia. Qed.

Lemma inserted_here l x n :
  n ≤ length l → (take n l ++ x :: drop n l) !! n = Some x.
Proof.
  intros Hn. rewrite lookup_app_r by (rewrite length_take_le; lia).
  rewrite length_take_le by done. by rewrite Nat.sub_diag.
Qed.

Lemma inserted_before l x n j :
  j < n → n ≤ length l → (take n l ++ x :: drop n l) !! j = l !! j.
Proof.
  intros Hj Hn. rewrite lookup_app_l by (rewrite length_take_le; lia).
  by apply lookup_take_lt.
Qed.

Lemma inserted_after l x n j :
  n ≤ j → n ≤ length l → (take n l ++ x :: drop n l) !! (j + 1) = l !! j.
Proof.
  intros Hj Hn. rewrite lookup_app_r by (rewrite length_take_le; lia).
  rewrite length_take_le by done.
  replace (j + 1 - n) with (S (j - n)) by lia. simpl.
  rewrite lookup_drop. f_equal. lia.
Qed.

End Insertion.

(** ** Rendering and the follow-up buttons *)

Section Render.
Context `{StrMethods}.

(** Among the keys [render_chat] gives its buttons, the key of the
    "Ask OpenAI" button of position [i] belongs to that button only. *)
Lemma widget_key_ask (button_text : string) (j i : nat) :
  button_text ∈ buttons →
  widget_key button_text j = widget_key "Ask OpenAI" i →
  button_text = "Ask OpenAI" ∧ j = i.
Proof.
  unfold buttons, widget_key. intros Hin Hkey.
  repeat (apply elem_of_cons in Hin as [->|Hin]); [| | | |by inversion Hin];
    try (cbv [String.append] in Hkey; discriminate Hkey).
  split; [done|].
  apply (inj (String.app "Ask OpenAI")), (inj (String.app "_")) in Hkey.
  by apply (inj pretty) in Hkey.
Qed.

(** A message none of whose buttons was clicked is only drawn. *)
Lemma render_message_idle (clicked : option string) (idx : nat) (msg : message) (w : world) :
  (∀ b, b ∈ buttons → clicked ≠ Some (widget_key b idx)) →
  render_message clicked idx msg w = w.
Proof.
  intros Hidle. unfold render_message.
  destruct (role msg); [done|]. destruct (is_static_answer msg); [|done].
  assert (∀ bs, bs ⊆ buttons →
    foldl (λ w b, if st_button clicked (widget_key b idx)
                  then on_click idx msg b w else w) w bs = w) as Hfold.
  { induction bs as [|b bs IH]; intros Hsub; [done|]. simpl.
    unfold st_button at 2. rewrite bool_decide_eq_false_2.
    - apply IH. intros x Hx. apply Hsub. by right.
    - apply Hidle, Hsub. by left. }
  by apply Hfold.
Qed.

(** With no click left to serve, the loop runs to the end of the list
    and changes nothing. *)
Lemma render_loop_idle (clicked : option string) (fuel : nat) :
  ∀ idx w,
    (∀ j b, idx ≤ j → b ∈ buttons → clicked ≠ Some (widget_key b j)) →
    length (current_messages w) - idx < fuel →
    render_loop fuel idx clicked w = Some w.
Proof.
  induction fuel as [|fuel IH]; intros idx w Hidle Hfuel; [lia|].
  simpl. destruct (current_messages w !! idx) as [msg|] eqn:Hmsg; [|done].
  apply lookup_lt_Some in Hmsg.
  rewrite render_message_idle by (intros b Hb; by apply Hidle).
  apply IH; [|lia]. intros j b Hj. apply Hidle. lia.
Qed.

(** The positions before the clicked one are passed over. *)
Lemma render_loop_skip (clicked : option string) (n : nat) :
  ∀ fuel idx w,
    (∀ j b, idx ≤ j < idx + n → b ∈ buttons → clicked ≠ Some (widget_key b j)) →
    idx + n ≤ length (current_messages w) →
    render_loop (n + fuel) idx clicked w = render_loop fuel (idx + n) clicked w.
Proof.
  induction n as [|n IH]; intros fuel idx w Hidle Hlen.
  - by rewrite Nat.add_0_r.
  - simpl. destruct (current_messages w !! idx) as [msg|] eqn:Hmsg.
    + rewrite render_message_idle by (intros b Hb; apply Hidle; [lia|done]).
      rewrite IH; [by replace (S idx + n) with (idx + S n) by lia| |lia].
      intros j b Hj. apply Hidle. lia.
    + apply lookup_ge_None in Hmsg. lia.
Qed.

(** At the clicked position, the static answer's "Ask OpenAI" button is
    the one that fires. *)
Lemma render_message_ask (i : nat) (msg : message) (w : world) :
  role msg = bot → is_static_answer msg = true →
  render_message (Some (widget_key "Ask OpenAI" i)) i msg w
  = on_click i msg "Ask OpenAI" w.
Proof.
  intros Hrole Hstatic. unfold render_message. rewrite Hrole, Hstatic.
  assert (∀ b, b ∈ buttons → b ≠ "Ask OpenAI" →
    st_button (Some (widget_key "Ask OpenAI" i)) (widget_key b i) = false) as Hother.
  { intros b Hb Hne. apply bool_decide_eq_false_2. intros [= Hkey].
    symmetry in Hkey. by apply widget_key_ask in Hkey as [? _]. }
  unfold buttons in *. cbn [foldl].
  rewrite (Hother "Ask a Specialist"), (Hother "Ask Your Peers"),
    (Hother "Ask on Instagram"); try discriminate; try (repeat constructor).
  unfold st_button. by rewrite bool_decide_eq_true_2.
Qed.

(** What the click does: the client is asked the content of the message
    under which the button sits, its answer goes into the list right
    after that message, and the chat is saved once. *)
Lemma on_click_ask (i : nat) (msg : message) (c : chat) (w : world) :
  current_chat w = Some c →
  let asked := ask_openai_cached (content msg) w in
  let msgs := take (i + 1) (messages c) ++ ai_message asked.1 :: drop (i + 1) (messages c) in
  on_click i msg "Ask OpenAI" w
  = save_chat_to_db (username w) {| title := title c; messages := msgs |}
      (set_current_messages msgs asked.2).
Proof.
  intros Hc. unfold on_click, insert_at.
  rewrite bool_decide_eq_true_2 by done.
  destruct (ask_openai_cached (content msg) w) as [ai_response w1] eqn:Hask. simpl.
  assert (session w1 = session w) as Hs.
  { change w1 with (ai_response, w1).2. rewrite <- Hask. apply ask_openai_cached_session. }
  assert (current_chat w1 = Some c) as Hc1 by (rewrite <- Hc; by apply current_chat_session).
  assert (current_messages w1 = messages c) as -> by (unfold current_messages; by rewrite Hc1).
  rewrite (current_messages_set _ c w1 Hc1), (current_title_set _ c w1 Hc1).
  injection Hs as -> _ _. done.
Qed.

(** With nothing clicked, rendering changes nothing. *)
Lemma render_chat_idle (fuel : nat) (w : world) :
  length (current_messages w) < fuel → render_chat fuel None w = Some w.
Proof.
  intros Hfuel. apply render_loop_idle; [done|lia].
Qed.

(** A script run on a world whose current chat exists goes straight to
    the form and the transcript. *)
Lemma show_chat_page_ready (fuel : nat) (ev : event) (c : chat) (w : world) :
  current_chat w = Some c →
  show_chat_page fuel ev w
  = match render_chat fuel (clicked_key ev)
            match ev with
            | Submit user_input =>
                if bool_decide (strip user_input ≠ "") then on_submit user_input w else w
            | _ => w
            end with
    | Some w' => Done w'
    | None => OutOfFuel
    end.
Proof.
  intros Hc. unfold show_chat_page.
  assert (∃ chats ci, users w !! username w = Some chats ∧ current_chat_index w = Some ci)
    as (chats & ci & -> & Hci).
  { unfold current_chat in Hc.
    destruct (current_chat_index w) as [ci|]; [|done].
    destruct (users w !! username w) as [chats|]; [|done]. by exists chats, ci. }
  rewrite Hci. by rewrite Hc.
Qed.

(** A click on the "Ask OpenAI" button of the static answer at position
    [i] makes the loop serve that click, once, and run to the end of the
    list as it is after the insertion. *)
Lemma render_chat_ask (i : nat) (m : message) (c : chat) (fuel : nat) (w : world) :
  current_chat w = Some c → messages c !! i = Some m →
  role m = bot → is_static_answer m = true →
  length (messages c) + 2 ≤ fuel →
  render_chat fuel (Some (widget_key "Ask OpenAI" i)) w
  = Some (on_click i m "Ask OpenAI" w).
Proof.
  intros Hc Hm Hrole Hstatic Hfuel. unfold render_chat.
  pose proof (lookup_lt_Some _ _ _ Hm) as Hi.
  assert (current_messages w = messages c) as Hmsgs
    by (unfold current_messages; by rewrite Hc).
  assert (∀ j b, j ≠ i → b ∈ buttons →
            Some (widget_key "Ask OpenAI" i) ≠ Some (widget_key b j)) as Hothers.
  { intros j b Hj Hb [= Hkey]. symmetry in Hkey.
    by apply widget_key_ask in Hkey as [_ ?]. }
  replace fuel with (i + S (fuel - S i)) by lia.
  rewrite render_loop_skip; [|intros j b Hj; apply Hothers; lia|rewrite Hmsgs; lia].
  cbn [render_loop Nat.add]. rewrite Hmsgs, Hm, render_message_ask by done.
  apply render_loop_idle; [intros j b Hj; apply Hothers; lia|].
  rewrite (on_click_ask i m c w Hc). unfold current_messages.
  rewrite current_chat_save.
  erewrite current_chat_set_current_messages; last first.
  { rewrite <- Hc. apply current_chat_session, ask_openai_cached_session. }
  simpl. rewrite inserted_length by lia. lia.
Qed.

End Render.

(** ** The properties *)

Section Claims.
Context `{StrMethods}.

(** C1.  For every curated question Q, an input whose trimmed, lowered
    text is the lowered text of Q gets Q's curated answer from
    [get_answer], which leaves the world as it was; on the chat page the
    answer is appended after the user's message as a static answer
    ([is_static_answer] is true), and the completion client is not
    involved: no request, no wait, the cache and its run record
    untouched.  The lowered curated questions are taken to be pairwise
    distinct, which they are. *)
Theorem static_question_resolved (Q : qa_pair) (user_input : string) :
  NoDup (map (λ p, lower (question p)) qa_pairs) →
  Q ∈ qa_pairs →
  lower (strip user_input) = lower (question Q) →
  (∀ w, get_answer user_input w = (answer Q, w))
  ∧ (∀ fuel w c,
       current_chat w = Some c → strip user_input ≠ "" →
       length (messages c) + 2 < fuel →
       ∃ w', show_chat_page fuel (Submit user_input) w = Done w'
             ∧ current_messages w'
               = messages c ++ [user_message (strip user_input); static_message (answer Q)]
             ∧ completions w' = completions w).
Proof.
  intros Hdistinct HQ Hkey.
  assert (STATIC_QA !! lower (strip user_input) = Some (answer Q)) as Hstatic.
  { unfold STATIC_QA. rewrite load_partner_cache_None, Hkey.
    by apply static_index_NoDup. }
  split.
  - intros w. unfold get_answer. by rewrite Hstatic.
  - intros fuel w c Hc Hnonblank Hfuel.
    rewrite (show_chat_page_ready fuel _ c w Hc).
    rewrite bool_decide_eq_true_2 by done.
    rewrite (on_submit_static user_input (answer Q) c w Hc Hstatic).
    set (msgs := messages c ++ _).
    set (w' := save_chat_to_db _ _ _).
    assert (current_messages w' = msgs) as Hmsgs.
    { unfold current_messages, w'. rewrite current_chat_save.
      by rewrite (current_chat_set_current_messages msgs c w Hc). }
    exists w'. split_and!.
    + simpl. rewrite render_chat_idle; [done|].
      rewrite Hmsgs. unfold msgs. rewrite length_app. simpl. lia.
    + done.
    + unfold w'. by destruct (save_chat_to_db_frame (username w)
        {| title := title c; messages := msgs |} (set_current_messages msgs w)) as [_ ->].
Qed.

(** C2.  For an input that misses the static index, resolving the same
    raw text twice runs the completion (the body of the cached
    function) at most once: the second resolution returns the value of
    the first and changes nothing, so it sends no request.  The same
    holds when the text is sent twice through the form of the chat
    page. *)
Theorem repeated_question_computed_once (Q : string) (w : world) :
  STATIC_QA !! lower (strip Q) = None →
  let first := get_answer Q w in
  let second := get_answer Q first.2 in
  second.1 = first.1 ∧ second.2 = first.2
  ∧ length (cache_misses second.2) ≤ length (cache_misses w) + 1
  ∧ requests second.2 = requests first.2
  ∧ (∀ c, current_chat w = Some c →
       completions (on_submit Q (on_submit Q w)) = completions (on_submit Q w)).
Proof.
  intros Hmiss. unfold get_answer. rewrite Hmiss. cbv zeta.
  rewrite (ask_openai_cached_hit Q _ _ (ask_openai_cached_stored Q w)).
  split_and!; try done.
  - cbn [fst snd]. destruct (cache w !! Q) as [value|] eqn:HQ.
    + rewrite (ask_openai_cached_hit Q value w HQ). simpl. lia.
    + destruct (ask_openai_cached_miss Q w HQ) as (n & waits & _ & ->). simpl.
      rewrite length_app. simpl. lia.
  - intros c Hc.
    destruct (on_submit_asked Q c w Hc Hmiss) as [Hfirst [c1 Hc1]].
    destruct (on_submit_asked Q c1 _ Hc1 Hmiss) as [-> _].
    pose proof (f_equal (λ t, t.1.2) Hfirst) as Hcache.
    cbn [completions fst snd] in Hcache.
    assert (cache (on_submit Q w) !! strip Q
            = Some (ask_openai_cached (strip Q) w).1) as Hhit
      by (rewrite Hcache; apply ask_openai_cached_stored).
    by rewrite (ask_openai_cached_hit _ _ _ Hhit).
Qed.

(** C3.  When the provider throttles the first two attempts and answers
    the third, [ask_openai] returns that answer (trimmed, as the code
    does with every answer) after three requests, having waited 5 and
    then 10: 5 times the number of the failed attempt, 15 in all. *)
Theorem throttled_twice_then_answered (q text : string) (w : world) :
  throttles 2 q w →
  provider w (length (requests w) + 2) q = Returns text →
  ask_openai q w = (strip text, after_requests 3 q [5 * 1; 5 * 2] w)
  ∧ sum_list (drop (length (slept w)) (slept (ask_openai q w).2)) = 5 + 10.
Proof.
  intros Hthr Hok. unfold ask_openai.
  rewrite (attempts_throttled 2 0 3 q w) by (done || lia).
  cbn [seq Nat.add Nat.sub attempts create]. simpl requests. simpl provider.
  rewrite length_app. simpl length. rewrite Hok.
  split.
  - f_equal. unfold after_requests, backoff. world_eq.
  - simpl. by rewrite drop_app_length.
Qed.

(** C4.  When all three attempts are throttled, [ask_openai] returns the
    fixed message about too many requests, an ordinary string; so does
    the cached function on a miss.  No path raises: whatever the
    provider does, what comes back is the trimmed reply, the text of an
    error, or that message. *)
Theorem always_throttled_message (q : string) (w : world) :
  throttles 3 q w →
  (ask_openai q w).1 = too_many_requests
  ∧ (cache w !! q = None → (ask_openai_cached q w).1 = too_many_requests)
  ∧ (∀ q' w',
       (ask_openai q' w').1 = too_many_requests
       ∨ (∃ text, (ask_openai q' w').1 = strip text)
       ∨ (∃ err, rate_limited err = false ∧ (ask_openai q' w').1 = error_message err)).
Proof.
  intros Hthr. split_and!.
  - unfold ask_openai. by rewrite (attempts_throttled 3 0 3 q w) by (done || lia).
  - intros Hmiss. unfold ask_openai_cached, st_cache_data, ask_openai. rewrite Hmiss.
    rewrite (attempts_throttled 3 0 3 q) by (done || lia). done.
  - intros q' w'. apply attempts_result.
Qed.


(** The follow-up as the code has it.  A click on "Ask OpenAI" under
    the static answer at position [i] asks the cached completion client
    the content of that message, that is the curated answer shown there
    (on a miss, between one and three requests carrying that text), and
    puts the reply at position [i + 1]: the messages up to [i] keep
    their positions and every later one moves up by one. *)
Theorem ask_openai_follow_up (i : nat) (m : message) (c : chat) (fuel : nat) (w : world) :
  current_chat w = Some c → messages c !! i = Some m →
  role m = bot → is_static_answer m = true →
  length (messages c) + 2 ≤ fuel →
  let asked := ask_openai_cached (content m) w in
  ∃ w', show_chat_page fuel (Click (widget_key "Ask OpenAI" i)) w = Done w'
    ∧ completions w' = completions asked.2
    ∧ (cache w !! content m = None →
         ∃ n, 1 ≤ n ≤ 3 ∧ requests w' = requests w ++ replicate n (content m))
    ∧ current_messages w' !! (i + 1) = Some (ai_message asked.1)
    ∧ (∀ j, j ≤ i → current_messages w' !! j = messages c !! j)
    ∧ (∀ j, i < j → current_messages w' !! (j + 1) = messages c !! j).
Proof.
  intros Hc Hm Hrole Hstatic Hfuel asked.
  pose proof (lookup_lt_Some _ _ _ Hm) as Hi.
  rewrite (show_chat_page_ready fuel _ c w Hc). simpl clicked_key.
  rewrite (render_chat_ask i m c fuel w) by done.
  eexists. split; [done|].
  rewrite (on_click_ask i m c w Hc). fold asked.
  set (msgs := take (i + 1) (messages c) ++ _).
  set (w' := save_chat_to_db _ _ _).
  assert (completions w' = completions asked.2) as Hcompl.
  { unfold w'. by destruct (save_chat_to_db_frame (username w)
      {| title := title c; messages := msgs |} (set_current_messages msgs asked.2)) as [_ ->]. }
  assert (current_messages w' = msgs) as ->.
  { unfold current_messages, w'. rewrite current_chat_save.
    erewrite current_chat_set_current_messages; [done|].
    rewrite <- Hc. apply current_chat_session, ask_openai_cached_session. }
  split_and!.
  - done.
  - intros Hmiss. injection Hcompl as -> _ _ _.
    destruct (ask_openai_cached_miss (content m) w Hmiss) as (n & waits & Hn & Heff).
    exists n. split; [done|]. unfold asked. by rewrite Heff.
  - apply inserted_here. lia.
  - intros j Hj. apply inserted_before; lia.
  - intros j Hj. apply inserted_after; lia.
Qed.

(** C7, as the code has it.  Each action that adds to a chat is followed,
    before the script run ends, by one upsert of the whole chat (its
    title and all its messages) for the user's name: sending the form
    appends the user's message and the answer and then saves once, a
    click on "Ask OpenAI" inserts the reply and then saves once.  When
    the upsert is refused the table is left as it was and the failure
    is shown as a notice; the run still completes and the chat keeps
    the added messages. *)
Theorem exchange_saved_once (c : chat) (w : world) :
  current_chat w = Some c →
  (∀ user_input fuel,
     strip user_input ≠ "" → length (messages c) + 2 < fuel →
     ∃ w' c', show_chat_page fuel (Submit user_input) w = Done w'
       ∧ current_chat w' = Some c' ∧ title c' = title c
       ∧ (∃ reply_message,
            messages c' = messages c ++ [user_message (strip user_input); reply_message])
       ∧ saved (username w) c' w w')
  ∧ (∀ i m fuel,
       messages c !! i = Some m → role m = bot → is_static_answer m = true →
       length (messages c) + 2 ≤ fuel →
       ∃ w' c', show_chat_page fuel (Click (widget_key "Ask OpenAI" i)) w = Done w'
         ∧ current_chat w' = Some c' ∧ title c' = title c
         ∧ length (messages c') = length (messages c) + 1
         ∧ saved (username w) c' w w').
Proof.
  intros Hc. split.
  - intros user_input fuel Hnonblank Hfuel.
    rewrite (show_chat_page_ready fuel _ c w Hc).
    rewrite bool_decide_eq_true_2 by done. simpl clicked_key.
    destruct (STATIC_QA !! lower (strip user_input)) as [static_answer|] eqn:Hkey.
    + rewrite (on_submit_static user_input static_answer c w Hc Hkey).
      set (msgs := messages c ++ _).
      set (c' := {| title := title c; messages := msgs |}).
      set (w' := save_chat_to_db _ _ _).
      assert (current_chat w' = Some c') as Hc'.
      { unfold w'. rewrite current_chat_save.
        by apply current_chat_set_current_messages. }
      exists w', c'. split_and!; [|done|done|by eexists|].
      * rewrite render_chat_idle; [done|].
        unfold current_messages. rewrite Hc'. simpl. unfold msgs.
        rewrite length_app. simpl. lia.
      * apply (saved_transfer _ _ (set_current_messages msgs w)); [done|done|].
        apply save_chat_to_db_saved.
    + rewrite (on_submit_dynamic user_input c w Hc Hkey). simpl.
      set (asked := ask_openai_cached (strip user_input) w).
      set (msgs := messages c ++ _).
      set (c' := {| title := title c; messages := msgs |}).
      set (w' := save_chat_to_db _ _ _).
      assert (current_chat w' = Some c') as Hc'.
      { unfold w'. rewrite current_chat_save.
        apply current_chat_set_current_messages.
        rewrite <- Hc. apply current_chat_session, ask_openai_cached_session. }
      exists w', c'. split_and!; [|done|done|by eexists|].
      * rewrite render_chat_idle; [done|].
        unfold current_messages. rewrite Hc'. simpl. unfold msgs.
        rewrite length_app. simpl. lia.
      * destruct (ask_openai_cached_storage (strip user_input) w) as [Hst Hdb].
        apply (saved_transfer _ _ (set_current_messages msgs asked.2)); [done|done|].
        apply save_chat_to_db_saved.
  - intros i m fuel Hm Hrole Hstatic Hfuel.
    pose proof (lookup_lt_Some _ _ _ Hm) as Hi.
    rewrite (show_chat_page_ready fuel _ c w Hc). simpl clicked_key.
    rewrite (render_chat_ask i m c fuel w) by done.
    rewrite (on_click_ask i m c w Hc). simpl.
    set (asked := ask_openai_cached (content m) w).
    set (msgs := take (i + 1) (messages c) ++ _).
    set (c' := {| title := title c; messages := msgs |}).
    exists (save_chat_to_db (username w) c' (set_current_messages msgs asked.2)), c'.
    split_and!; [done| |done| |].
    + rewrite current_chat_save. apply current_chat_set_current_messages.
      rewrite <- Hc. apply current_chat_session, ask_openai_cached_session.
    + simpl. unfold msgs. apply inserted_length. lia.
    + destruct (ask_openai_cached_storage (content m) w) as [Hst Hdb].
      apply (saved_transfer _ _ (set_current_messages msgs asked.2)); [done|done|].
      apply save_chat_to_db_saved.
Qed.

(** C8, as the code has it.  The cache is keyed by the text the cached
    function is called with, which no path lowers.  [get_answer] passes
    the raw input: two different inputs that miss the static index are
    two keys and two completions, also when they differ only in letter
    case or in surrounding blanks.  The chat page passes the trimmed
    input: inputs whose trimmed texts differ (in letter case, say) are
    two keys and two completions, inputs that differ only in
    surrounding blanks are one key and one completion. *)
Theorem cache_key_is_the_text_passed (u1 u2 : string) (w : world) :
  STATIC_QA !! lower (strip u1) = None →
  STATIC_QA !! lower (strip u2) = None →
  (cache w !! u1 = None → cache w !! u2 = None → u1 ≠ u2 →
     let w2 := (get_answer u2 (get_answer u1 w).2).2 in
     cache_misses w2 = cache_misses w ++ [u1; u2]
     ∧ dom (cache w2) = {[u1; u2]} ∪ dom (cache w))
  ∧ (∀ c, current_chat w = Some c →
       cache w !! strip u1 = None → cache w !! strip u2 = None →
       let w2 := on_submit u2 (on_submit u1 w) in
       (strip u1 ≠ strip u2 → cache_misses w2 = cache_misses w ++ [strip u1; strip u2])
       ∧ (strip u1 = strip u2 → cache_misses w2 = cache_misses w ++ [strip u1])).
Proof.
  intros Hmiss1 Hmiss2. split.
  - intros Hcold1 Hcold2 Hne. unfold get_answer. rewrite Hmiss1, Hmiss2. simpl.
    destruct (ask_openai_cached_recorded u1 w Hcold1) as [Hm1 Hc1].
    assert (cache (ask_openai_cached u1 w).2 !! u2 = None) as Hcold2'
      by (by rewrite Hc1, lookup_insert_ne).
    destruct (ask_openai_cached_recorded u2 _ Hcold2') as [-> ->].
    rewrite Hm1, Hc1, <- app_assoc. split; [done|].
    rewrite !dom_insert_L, (assoc_L (∪)). f_equal. apply (comm_L (∪)).
  - intros c Hc Hcold1 Hcold2.
    destruct (on_submit_asked u1 c w Hc Hmiss1) as [Hasked1 [c1 Hc1]].
    destruct (on_submit_asked u2 c1 _ Hc1 Hmiss2) as [Hasked2 _].
    pose proof (f_equal (λ t, t.1.2) Hasked1) as Hcache1.
    pose proof (f_equal snd Hasked1) as Hmisses1.
    pose proof (f_equal snd Hasked2) as Hmisses2.
    clear Hasked1 Hasked2. cbn [completions fst snd] in Hcache1, Hmisses1, Hmisses2.
    destruct (ask_openai_cached_recorded (strip u1) w Hcold1) as [Hm1 Hk1].
    rewrite Hm1 in Hmisses1. rewrite Hk1 in Hcache1.
    cbv zeta. rewrite Hmisses2. split.
    + intros Hne.
      assert (cache (on_submit u1 w) !! strip u2 = None) as Hcold2'
        by (by rewrite Hcache1, lookup_insert_ne).
      destruct (ask_openai_cached_recorded (strip u2) _ Hcold2') as [-> _].
      by rewrite Hmisses1, <- app_assoc.
    + intros Heq.
      assert (cache (on_submit u1 w) !! strip u2
              = Some (ask_openai_cached (strip u1) w).1) as Hhit
        by (by rewrite Hcache1, <- Heq, lookup_insert_eq).
      by rewrite (ask_openai_cached_hit _ _ _ Hhit).
Qed.


(** C10.  When all three attempts are throttled the client waits after
    every one of them, the last included: 5, 10 and then 15, 30 in all,
    though no request follows the last wait (three requests are sent). *)
Theorem always_throttled_waits (q : string) (w : world) :
  throttles 3 q w →
  (ask_openai q w).2 = after_requests 3 q [5; 10; 15] w
  ∧ sum_list (drop (length (slept w)) (slept (ask_openai q w).2)) = 30.
Proof.
  intros Hthr. unfold ask_openai.
  rewrite (attempts_throttled 3 0 3 q w) by (done || lia).
  split; [done|]. simpl. by rewrite drop_app_length.
Qed.

End Claims.



(** ** The properties on concrete runs *)

(** Under the ASCII reading the lowered curated questions are pairwise
    distinct. *)
Lemma curated_keys_distinct :
  NoDup (map (λ p, lower (question p)) qa_pairs).
Proof. apply (bool_decide_unpack _). vm_compute. exact I. Qed.

Lemma throttled_twice_throttles (q : string) :
  throttles 2 q (fresh throttled_twice db_up).
Proof.
  intros [|[|j]] Hj; [by exists "Rate limit reached"..|lia].
Qed.

Lemma throttled_throttles (k : nat) (q : string) (d : nat → option string) :
  throttles k q (fresh throttled d).
Proof. intros j _. by exists "Error code: 429". Qed.

(** The first curated question, shouted and padded, is answered from the
    list. *)
Lemma static_question_resolved_witness :
  get_answer "  MY CHIEF STEW AND CHEF ARE IN CONFLICT TWO DAYS BEFORE A BUSY CHARTER. HOW DO I DE-ESCALATE THIS WITHOUT TAKING SIDES OR COMPROMISING SERVICE?  "
    (fresh down db_up)
  = (answer first_pair, fresh down db_up).
Proof.
  apply (static_question_resolved first_pair).
  - exact curated_keys_distinct.
  - apply list_elem_of_lookup. by exists 0.
  - vm_compute. reflexivity.
Defined.

Lemma repeated_question_computed_once_witness :
  let w := fresh echo db_up in
  let first := get_answer "What's the weather in Monaco?" w in
  let second := get_answer "What's the weather in Monaco?" first.2 in
  second.1 = first.1 ∧ second.2 = first.2
  ∧ length (cache_misses second.2) ≤ length (cache_misses w) + 1
  ∧ requests second.2 = requests first.2
  ∧ (∀ c, current_chat w = Some c →
       completions (on_submit "What's the weather in Monaco?"
                      (on_submit "What's the weather in Monaco?" w))
       = completions (on_submit "What's the weather in Monaco?" w)).
Proof.
  apply (repeated_question_computed_once "What's the weather in Monaco?" (fresh echo db_up)).
  vm_compute. reflexivity.
Defined.

Lemma throttled_twice_then_answered_witness :
  ask_openai "Hi" (fresh throttled_twice db_up)
  = ("Re: Hi", after_requests 3 "Hi" [5; 10] (fresh throttled_twice db_up))
  ∧ sum_list (drop 0 (slept (ask_openai "Hi" (fresh throttled_twice db_up)).2)) = 15.
Proof.
  exact (throttled_twice_then_answered "Hi" " Re: Hi " (fresh throttled_twice db_up)
           (throttled_twice_throttles "Hi") eq_refl).
Defined.

Lemma always_throttled_message_witness :
  (ask_openai "Hi" (fresh throttled db_up)).1 = too_many_requests
  ∧ (cache (fresh throttled db_up) !! "Hi" = None →
     (ask_openai_cached "Hi" (fresh throttled db_up)).1 = too_many_requests)
  ∧ (∀ q' w',
       (ask_openai q' w').1 = too_many_requests
       ∨ (∃ text, (ask_openai q' w').1 = strip text)
       ∨ (∃ err, rate_limited err = false ∧ (ask_openai q' w').1 = error_message err)).
Proof.
  apply (always_throttled_message "Hi" (fresh throttled db_up)).
  apply throttled_throttles.
Defined.



Lemma always_throttled_waits_witness :
  (ask_openai "Hi" (fresh throttled db_up)).2
  = after_requests 3 "Hi" [5; 10; 15] (fresh throttled db_up)
  ∧ sum_list (drop 0 (slept (ask_openai "Hi" (fresh throttled db_up)).2)) = 30.
Proof.
  apply (always_throttled_waits "Hi" (fresh throttled db_up)).
  apply throttled_throttles.
Defined.

(** A throttled first attempt followed by another error: one wait, two
    requests, and the second error's text. *)
Example throttled_then_other_error :
  ask_openai "Hi" (fresh throttled_then_down db_up)
  = ("⚠️ Error: Connection error.", after_requests 2 "Hi" [5] (fresh throttled_then_down db_up)).
Proof. vm_compute. reflexivity. Qed.

Lemma answered_current_chat (p : nat → string → reply) (d : nat → option string) :
  current_chat (answered p d)
  = Some {| title := "Chat 1";
            messages := [ user_message (question first_pair);
                          static_message (answer first_pair);
                          user_message "Thanks" ] |}.
Proof. reflexivity. Qed.

Lemma fresh_current_chat (p : nat → string → reply) (d : nat → option string) :
  current_chat (fresh p d) = Some {| title := "Chat 1"; messages := [] |}.
Proof. reflexivity. Qed.

(** In a three-message chat whose second message is the static answer,
    the click puts the reply third and moves the old third message to
    the fourth place. *)
Lemma ask_openai_follow_up_witness :
  ∃ w', show_chat_page 5 (Click "Ask OpenAI_1") (answered echo db_up) = Done w'
    ∧ current_messages w' !! 1 = Some (static_message (answer first_pair))
    ∧ current_messages w' !! 2 = Some (ai_message ("Re: " +:+ answer first_pair))
    ∧ current_messages w' !! 3 = Some (user_message "Thanks").
Proof.
  destruct (ask_openai_follow_up 1 (static_message (answer first_pair)) _ 5
              (answered echo db_up) (answered_current_chat echo db_up)
              eq_refl eq_refl eq_refl (le_n 5))
    as (w' & Hrun & _ & _ & Hnew & Hbefore & Hafter).
  exists w'. split_and!.
  - exact Hrun.
  - exact (Hbefore 1 (le_n 1)).
  - exact Hnew.
  - exact (Hafter 2 (le_n 2)).
Defined.

(** The form on a fresh chat while the database refuses: both messages
    stay in the chat, one upsert was tried, its failure is on the
    screen. *)
Lemma exchange_saved_once_witness :
  ∃ w' c', show_chat_page 5 (Submit "Hi") (fresh echo db_down) = Done w'
    ∧ current_chat w' = Some c' ∧ title c' = "Chat 1"
    ∧ (∃ reply_message, messages c' = [user_message "Hi"; reply_message])
    ∧ saved "Guest" c' (fresh echo db_down) w'.
Proof.
  assert (strip "Hi" ≠ "") as Hnonblank by discriminate.
  exact (proj1 (exchange_saved_once _ (fresh echo db_down) (fresh_current_chat echo db_down))
           "Hi" 5 Hnonblank ltac:(simpl; lia)).
Defined.

(** "Hello" and "hello": two keys on both paths. *)
Lemma cache_key_is_the_text_passed_witness :
  let w := fresh echo db_up in
  (cache w !! "Hello" = None → cache w !! "hello" = None → "Hello" ≠ "hello" →
     let w2 := (get_answer "hello" (get_answer "Hello" w).2).2 in
     cache_misses w2 = cache_misses w ++ ["Hello"; "hello"]
     ∧ dom (cache w2) = {["Hello"; "hello"]} ∪ dom (cache w))
  ∧ (∀ c, current_chat w = Some c →
       cache w !! strip "Hello" = None → cache w !! strip "hello" = None →
       let w2 := on_submit "hello" (on_submit "Hello" w) in
       (strip "Hello" ≠ strip "hello"
        → cache_misses w2 = cache_misses w ++ [strip "Hello"; strip "hello"])
       ∧ (strip "Hello" = strip "hello"
          → cache_misses w2 = cache_misses w ++ [strip "Hello"])).
Proof.
  apply (cache_key_is_the_text_passed "Hello" "hello" (fresh echo db_up));
    vm_compute; reflexivity.
Defined.

(** ** Where the code departs from the statements *)

(** C6.  The click on "Ask OpenAI" under a static answer should ask the
    completion client the question that was asked; the code passes it
    the content of the message under which the button sits, which is
    the curated answer.  A guest sends the first curated question, gets
    its static answer, sends "Thanks", and clicks the button under the
    static answer: the request this click sends carries the answer
    text, which is not the question.  The reply does land right after
    the static answer. *)
Lemma ask_openai_follow_up_sends_the_answer :
  let w := script_runs 7 [ Submit (question first_pair); Submit "Thanks";
                           Click "Ask OpenAI_1" ] (fresh echo db_up) in
  requests <$> w = Some ["Thanks"; answer first_pair]
  ∧ current_messages <$> w
    = Some [ user_message (question first_pair);
             static_message (answer first_pair);
             ai_message ("Re: " +:+ answer first_pair);
             user_message "Thanks";
             ai_message "Re: Thanks" ]
  ∧ answer first_pair ≠ question first_pair.
Proof.
  split; [vm_compute; reflexivity|]. split; [vm_compute; reflexivity|].
  apply (bool_decide_unpack _). vm_compute. exact I.
Qed.

(** C7 as stated fails: sending the form appends two messages and saves
    once, after the second; the chat holding only the user's message is
    never written. *)
Lemma submit_appends_twice_saves_once :
  let w := script_runs 5 [Submit "Hi"] (fresh echo db_up) in
  current_messages (fresh echo db_up) = []
  ∧ current_messages <$> w = Some [user_message "Hi"; ai_message "Re: Hi"]
  ∧ upserts <$> w
    = Some [("Guest", {| title := "Chat 1";
                         messages := [user_message "Hi"; ai_message "Re: Hi"] |})].
Proof. split_and!; vm_compute; reflexivity. Qed.

(** C8 as stated fails on the chat page: two inputs that differ only in
    surrounding blanks, both missing the static index, share one cache
    key, and the second is answered without a completion. *)
Lemma padded_input_shares_cache_key :
  let w := script_runs 5 [Submit " hello"; Submit "hello "] (fresh echo db_up) in
  STATIC_QA !! lower (strip " hello") = None
  ∧ STATIC_QA !! lower (strip "hello ") = None
  ∧ cache_misses <$> w = Some ["hello"]
  ∧ requests <$> w = Some ["hello"]
  ∧ (map_to_list ∘ cache) <$> w = Some [("hello", "Re: hello")]
  ∧ current_messages <$> w
    = Some [ user_message "hello"; ai_message "Re: hello";
             user_message "hello"; ai_message "Re: hello" ].
Proof. split_and!; vm_compute; reflexivity. Qed.

(** No curated question is written between blanks: on the curated table
    the key of the specification and the key of the code are the same. *)
Lemma curated_questions_trimmed :
  Forall (λ p, strip (question p) = question p) qa_pairs.
Proof. apply (bool_decide_unpack _). vm_compute. exact I. Qed.


(** ** What a script run of the chat page can and cannot do *)

Section Runs.
Context `{StrMethods}.

(** Each button of each position has a key of its own. *)
Lemma widget_key_inj (b b' : string) (j i : nat) :
  b ∈ buttons → b' ∈ buttons →
  widget_key b j = widget_key b' i → b = b' ∧ j = i.
Proof.
  unfold buttons, widget_key. intros Hb Hb' Hkey.
  repeat (apply elem_of_cons in Hb as [->|Hb]); [| | | |by inversion Hb];
    repeat (apply elem_of_cons in Hb' as [->|Hb']);
    try (by inversion Hb');
    try (cbv [String.append] in Hkey; discriminate Hkey);
    (split; [done|]);
    apply (inj (String.app _)), (inj (String.app "_")) in Hkey;
    by apply (inj pretty) in Hkey.
Qed.

(** The buttons of a message, when the click was on none of them. *)
Lemma buttons_idle (clicked : option string) (idx : nat) (msg : message)
    (bs : list string) (w : world) :
  (∀ b, b ∈ bs → clicked ≠ Some (widget_key b idx)) →
  foldl (λ w b, if st_button clicked (widget_key b idx)
                then on_click idx msg b w else w) w bs = w.
Proof.
  induction bs as [|b bs IH]; intros Hidle; [done|]. simpl.
  unfold st_button at 2. rewrite bool_decide_eq_false_2.
  - apply IH. intros x Hx. apply Hidle. by right.
  - apply Hidle. by left.
Qed.

(** The buttons of a message, when the click was on one of them: that
    one fires, and only that one. *)
Lemma buttons_fire (b : string) (i : nat) (msg : message) (bs : list string) :
  ∀ w, NoDup bs → bs ⊆ buttons → b ∈ bs →
    foldl (λ w b', if st_button (Some (widget_key b i)) (widget_key b' i)
                   then on_click i msg b' w else w) w bs
    = on_click i msg b w.
Proof.
  induction bs as [|b0 bs IH]; intros w Hnodup Hsub Hb; [by inversion Hb|].
  apply NoDup_cons in Hnodup as [Hb0 Hnodup]. simpl.
  assert (b ∈ buttons) as Hbb by (apply Hsub, Hb).
  destruct (decide (b0 = b)) as [->|Hne].
  - unfold st_button at 2. rewrite bool_decide_eq_true_2 by done.
    apply buttons_idle. intros b' Hb' [= Hkey].
    apply widget_key_inj in Hkey as [-> _]; [done|done|].
    apply Hsub. by right.
  - unfold st_button at 2. rewrite bool_decide_eq_false_2.
    + apply IH; [done|intros x Hx; apply Hsub; by right|].
      apply elem_of_cons in Hb as [->|Hb]; done.
    + intros [= Hkey]. apply widget_key_inj in Hkey as [-> _]; [done|done|].
      apply Hsub. by left.
Qed.

Lemma buttons_NoDup : NoDup buttons.
Proof. apply (bool_decide_unpack _). vm_compute. exact I. Qed.

Lemma render_message_fires (b : string) (i : nat) (msg : message) (w : world) :
  b ∈ buttons → role msg = bot → is_static_answer msg = true →
  render_message (Some (widget_key b i)) i msg w = on_click i msg b w.
Proof.
  intros Hb Hrole Hstatic. unfold render_message. rewrite Hrole, Hstatic.
  by apply buttons_fire; [apply buttons_NoDup| |].
Qed.

(** The three other buttons only say that they were clicked. *)
Lemma on_click_other (i : nat) (msg : message) (b : string) (w : world) :
  b ≠ "Ask OpenAI" →
  on_click i msg b w
  = set_notices (notices w ++ [Info ("You clicked '" +:+ b +:+ "'")]) w.
Proof. intros Hb. unfold on_click. by rewrite bool_decide_eq_false_2. Qed.

Lemma render_chat_other (b : string) (i : nat) (m : message) (c : chat)
    (fuel : nat) (w : world) :
  b ∈ buttons → b ≠ "Ask OpenAI" →
  current_chat w = Some c → messages c !! i = Some m →
  role m = bot → is_static_answer m = true →
  length (messages c) < fuel →
  render_chat fuel (Some (widget_key b i)) w = Some (on_click i m b w).
Proof.
  intros Hb Hne Hc Hm Hrole Hstatic Hfuel. unfold render_chat.
  pose proof (lookup_lt_Some _ _ _ Hm) as Hi.
  assert (current_messages w = messages c) as Hmsgs
    by (unfold current_messages; by rewrite Hc).
  assert (∀ j b', j ≠ i → b' ∈ buttons →
            Some (widget_key b i) ≠ Some (widget_key b' j)) as Hothers.
  { intros j b' Hj Hb' [= Hkey]. symmetry in Hkey.
    by apply widget_key_inj in Hkey as [_ ?]. }
  replace fuel with (i + S (fuel - S i)) by lia.
  rewrite render_loop_skip; [|intros j b' Hj; apply Hothers; lia|rewrite Hmsgs; lia].
  cbn [render_loop Nat.add]. rewrite Hmsgs, Hm, render_message_fires by done.
  apply render_loop_idle; [intros j b' Hj; apply Hothers; lia|].
  rewrite on_click_other by done.
  change (current_messages (set_notices _ w)) with (current_messages w).
  rewrite Hmsgs. lia.
Qed.

End Runs.

(** A property of the world that the cached client, the changes of the
    transcript, the upsert and the notices all keep is kept by every
    script run of the chat page, whatever the user did. *)
Section Rule.
Context `{StrMethods}.
Variable Inv : world → Prop.
Hypothesis Inv_ask : ∀ q w, Inv w → Inv (ask_openai_cached q w).2.
Hypothesis Inv_append : ∀ m w, Inv w → Inv (append m w).
Hypothesis Inv_insert : ∀ i m w, Inv w → Inv (insert_at i m w).
Hypothesis Inv_save : ∀ u c w, Inv w → Inv (save_chat_to_db u c w).
Hypothesis Inv_info : ∀ x w, Inv w → Inv (set_notices (notices w ++ [x]) w).

Lemma on_click_rule (idx : nat) (msg : message) (b : string) (w : world) :
  Inv w → Inv (on_click idx msg b w).
Proof.
  intros Hw. unfold on_click. case_bool_decide; [|by apply Inv_info].
  pose proof (Inv_ask (content msg) w Hw) as Hasked.
  destruct (ask_openai_cached (content msg) w) as [ai_response w1].
  by apply Inv_save, Inv_insert.
Qed.

Lemma render_message_rule (clicked : option string) (idx : nat) (msg : message)
    (w : world) :
  Inv w → Inv (render_message clicked idx msg w).
Proof.
  intros Hw. unfold render_message.
  destruct (role msg); [done|]. destruct (is_static_answer msg); [|done].
  revert w Hw. induction buttons as [|b bs IH]; intros w Hw; [done|]. simpl.
  apply IH. destruct (st_button clicked (widget_key b idx)); [|done].
  by apply on_click_rule.
Qed.

Lemma render_loop_rule (clicked : option string) (fuel : nat) :
  ∀ idx w w', Inv w → render_loop fuel idx clicked w = Some w' → Inv w'.
Proof.
  induction fuel as [|fuel IH]; intros idx w w' Hw Hrun; [done|].
  simpl in Hrun. destruct (current_messages w !! idx) as [msg|].
  - eapply IH; [|exact Hrun]. by apply render_message_rule.
  - by injection Hrun as <-.
Qed.

Lemma on_submit_rule (user_input : string) (w : world) :
  Inv w → Inv (on_submit user_input w).
Proof.
  intros Hw. unfold on_submit. apply Inv_save.
  destruct (STATIC_QA !! lower (strip user_input)) as [static_answer|].
  - by apply Inv_append, Inv_append.
  - pose proof (Inv_ask (strip user_input) _ (Inv_append (user_message (strip user_input)) w Hw))
      as Hasked.
    unfold user_message in Hasked.
    destruct (ask_openai_cached (strip user_input) _) as [ai_response w1].
    by apply Inv_append.
Qed.

Lemma show_chat_page_rule (fuel : nat) (ev : event) (c : chat) (w w' : world) :
  current_chat w = Some c → Inv w →
  show_chat_page fuel ev w = Done w' → Inv w'.
Proof.
  intros Hc Hw. rewrite (show_chat_page_ready fuel ev c w Hc).
  destruct (render_chat _ _ _) as [w1|] eqn:Hrun; [|done]. intros [= <-].
  eapply render_loop_rule; [|exact Hrun].
  destruct ev as [user_input| |]; [|done..].
  case_bool_decide; [|done]. by apply on_submit_rule.
Qed.

End Rule.

Section Sequences.
Context `{StrMethods}.

Lemma session_set_current_messages (msgs : list message) (w1 w2 : world) :
  session w1 = session w2 →
  session (set_current_messages msgs w1) = session (set_current_messages msgs w2).
Proof. unfold session, set_current_messages. simpl. by intros [= -> -> ->]. Qed.

(** A run leaves the current chat in place. *)
Lemma show_chat_page_keeps_chat (fuel : nat) (ev : event) (w w' : world) :
  is_Some (current_chat w) → show_chat_page fuel ev w = Done w' →
  is_Some (current_chat w').
Proof.
  intros [c Hc] Hrun.
  apply (show_chat_page_rule (λ w, is_Some (current_chat w))) with fuel ev c w; try done.
  - intros q w0 Hw0.
    by rewrite (current_chat_session _ w0 (ask_openai_cached_session q w0)).
  - intros m w0 [c0 Hc0]. unfold append.
    by rewrite (current_chat_set_current_messages _ c0 w0 Hc0).
  - intros i m w0 [c0 Hc0]. unfold insert_at.
    by rewrite (current_chat_set_current_messages _ c0 w0 Hc0).
  - intros u c0 w0 Hw0. by rewrite current_chat_save.
Qed.

Variable Inv : world → Prop.
Hypothesis Inv_ask : ∀ q w, Inv w → Inv (ask_openai_cached q w).2.
Hypothesis Inv_append : ∀ m w, Inv w → Inv (append m w).
Hypothesis Inv_insert : ∀ i m w, Inv w → Inv (insert_at i m w).
Hypothesis Inv_save : ∀ u c w, Inv w → Inv (save_chat_to_db u c w).
Hypothesis Inv_info : ∀ x w, Inv w → Inv (set_notices (notices w ++ [x]) w).

Lemma script_runs_rule (fuel : nat) (events : list event) :
  ∀ w w', is_Some (current_chat w) → Inv w →
    script_runs fuel events w = Some w' → Inv w' ∧ is_Some (current_chat w').
Proof.
  induction events as [|ev events IH]; intros w w' Hc Hw Hrun.
  - by injection Hrun as <-.
  - cbn [script_runs] in Hrun.
    destruct (show_chat_page fuel ev w) as [w1| |] eqn:Hev; [|done..].
    simpl in Hrun. destruct Hc as [c Hc]. apply (IH w1 w'); [| |done].
    + by apply (show_chat_page_keeps_chat fuel ev w).
    + by apply (show_chat_page_rule Inv Inv_ask Inv_append Inv_insert Inv_save Inv_info
                  fuel ev c w).
Qed.

End Sequences.

Section Chat_page_facts.
Context `{StrMethods}.

(** X1.  Under a static answer the buttons "Ask a Specialist", "Ask Your
    Peers" and "Ask on Instagram" do nothing but say that they were
    clicked: the run ends with one more notice and the world otherwise
    as it was (no request, no change of the transcript, no upsert). *)
Theorem other_buttons_only_notify (b : string) (i : nat) (m : message) (c : chat)
    (fuel : nat) (w : world) :
  b ∈ buttons → b ≠ "Ask OpenAI" →
  current_chat w = Some c → messages c !! i = Some m →
  role m = bot → is_static_answer m = true →
  length (messages c) < fuel →
  show_chat_page fuel (Click (widget_key b i)) w
  = Done (set_notices (notices w ++ [Info ("You clicked '" +:+ b +:+ "'")]) w).
Proof.
  intros Hb Hne Hc Hm Hrole Hstatic Hfuel.
  rewrite (show_chat_page_ready fuel _ c w Hc). simpl clicked_key.
  rewrite (render_chat_other b i m c fuel w) by done.
  by rewrite on_click_other.
Qed.

(** X2.  A form sent with nothing but blanks in it is ignored: nothing is
    appended, asked or saved, and the run leaves the world as it was. *)
Theorem blank_submission_ignored (user_input : string) (c : chat) (fuel : nat)
    (w : world) :
  current_chat w = Some c → strip user_input = "" →
  length (messages c) < fuel →
  show_chat_page fuel (Submit user_input) w = Done w.
Proof.
  intros Hc Hblank Hfuel.
  rewrite (show_chat_page_ready fuel _ c w Hc).
  rewrite bool_decide_eq_false_2 by (by intros []).
  simpl clicked_key. rewrite render_chat_idle; [done|].
  unfold current_messages. by rewrite Hc.
Qed.

(** No script run removes or changes an entry of the cache. *)
Lemma script_runs_keep_cache (fuel : nat) (events : list event) (w w' : world) :
  is_Some (current_chat w) → script_runs fuel events w = Some w' →
  cache w ⊆ cache w'.
Proof.
  intros Hc Hrun.
  refine (proj1 (script_runs_rule (λ w0, cache w ⊆ cache w0) _ _ _ _ _
                   fuel events w w' Hc _ Hrun)); try done.
  - intros q w0 Hw0. destruct (cache w0 !! q) as [v|] eqn:Hq.
    + by rewrite (ask_openai_cached_hit q v w0 Hq).
    + destruct (ask_openai_cached_recorded q w0 Hq) as [_ ->].
      etrans; [exact Hw0|]. by apply insert_subseteq.
  - intros u c0 w0 Hw0. unfold save_chat_to_db.
    by destruct (database w0 (length (upserts w0))).
Qed.

(** X3.  What is cached for a question stays cached: after any sequence
    of script runs of the chat page the cached function returns the
    same value for it, sending nothing and changing nothing. *)
Theorem cached_answer_stays (q value : string) (fuel : nat) (events : list event)
    (w w' : world) :
  is_Some (current_chat w) → cache w !! q = Some value →
  script_runs fuel events w = Some w' →
  ask_openai_cached q w' = (value, w').
Proof.
  intros Hc Hq Hrun. apply ask_openai_cached_hit.
  pose proof (script_runs_keep_cache fuel events w w' Hc Hrun) as Hsub.
  by apply (lookup_weaken _ _ _ _ Hq Hsub).
Qed.

(** X4.  Failures are cached like answers.  Once a question has met
    three throttled attempts, the message about too many requests is
    what the cached function returns for it from then on, after any
    sequence of script runs and whatever the provider would answer by
    then: the question is not sent again. *)
Theorem overload_message_is_cached (q : string) (fuel : nat) (events : list event)
    (w w' : world) :
  is_Some (current_chat w) → cache w !! q = None → throttles 3 q w →
  script_runs fuel events (ask_openai_cached q w).2 = Some w' →
  ask_openai_cached q w' = (too_many_requests, w').
Proof.
  intros Hc Hq Hthr Hrun.
  assert ((ask_openai_cached q w).1 = too_many_requests) as Hmsg.
  { unfold ask_openai_cached, st_cache_data, ask_openai. rewrite Hq.
    by rewrite (attempts_throttled 3 0 3 q) by (done || lia). }
  assert (is_Some (current_chat (ask_openai_cached q w).2)) as Hc'
    by (by rewrite (current_chat_session _ w (ask_openai_cached_session q w))).
  pose proof (script_runs_keep_cache fuel events _ w' Hc' Hrun) as Hsub.
  apply ask_openai_cached_hit. rewrite <- Hmsg.
  apply (lookup_weaken _ _ _ _ (ask_openai_cached_stored q w) Hsub).
Qed.

(** The chats of a world in which the transcript of the current chat has
    grown into [msgs]. *)
Lemma set_current_messages_elsewhere (msgs : list message) (w : world) :
  (∀ u, u ≠ username w →
     users (set_current_messages msgs w) !! u = users w !! u)
  ∧ (∀ chats ci j,
       users w !! username w = Some chats → current_chat_index w = Some ci → j ≠ ci →
       ∃ chats', users (set_current_messages msgs w) !! username w = Some chats'
                 ∧ chats' !! j = chats !! j).
Proof.
  unfold set_current_messages. simpl. split.
  - intros u Hu. destruct (current_chat_index w) as [ci|]; [|done].
    destruct (users w !! username w) as [chats|]; [|done].
    by rewrite lookup_insert_ne.
  - intros chats ci j -> -> Hj. eexists. rewrite lookup_insert_eq. split; [done|].
    by rewrite list_lookup_alter_ne.
Qed.


(** X6.  Clicking "Ask OpenAI" again under the same static answer sends
    nothing new (the reply is in the cache) but inserts the same reply
    once more and saves again: the transcript then holds the reply twice
    in a row after the static answer. *)
Theorem repeated_follow_up_duplicates (i : nat) (m : message) (c : chat)
    (fuel : nat) (w : world) :
  current_chat w = Some c → messages c !! i = Some m →
  role m = bot → is_static_answer m = true →
  length (messages c) + 3 ≤ fuel →
  let ev := Click (widget_key "Ask OpenAI" i) in
  let reply := ai_message (ask_openai_cached (content m) w).1 in
  ∃ w1 w2,
    show_chat_page fuel ev w = Done w1
    ∧ show_chat_page fuel ev w1 = Done w2
    ∧ completions w2 = completions w1
    ∧ current_messages w2
      = take (i + 1) (messages c) ++ reply :: reply :: drop (i + 1) (messages c)
    ∧ length (upserts w2) = length (upserts w) + 2.
Proof.
  intros Hc Hm Hrole Hstatic Hfuel ev reply.
  pose proof (lookup_lt_Some _ _ _ Hm) as Hi.
  set (asked := ask_openai_cached (content m) w) in *.
  set (msgs1 := take (i + 1) (messages c) ++ reply :: drop (i + 1) (messages c)).
  set (c1 := {| title := title c; messages := msgs1 |}).
  set (w1 := save_chat_to_db (username w) c1 (set_current_messages msgs1 asked.2)).
  assert (show_chat_page fuel ev w = Done w1) as Hrun1.
  { unfold ev. rewrite (show_chat_page_ready fuel _ c w Hc). simpl clicked_key.
    rewrite (render_chat_ask i m c fuel w) by (done || lia).
    by rewrite (on_click_ask i m c w Hc). }
  assert (current_chat w1 = Some c1) as Hc1.
  { unfold w1. rewrite current_chat_save. apply current_chat_set_current_messages.
    rewrite <- Hc. apply current_chat_session, ask_openai_cached_session. }
  assert (completions w1 = completions asked.2) as Hcompl1.
  { unfold w1. by destruct (save_chat_to_db_frame (username w) c1
                              (set_current_messages msgs1 asked.2)) as [_ ->]. }
  assert (ask_openai_cached (content m) w1 = (asked.1, w1)) as Hhit.
  { apply ask_openai_cached_hit.
    pose proof (f_equal (λ t, t.1.2) Hcompl1) as Hcache.
    cbn [completions fst snd] in Hcache. rewrite Hcache.
    apply ask_openai_cached_stored. }
  assert (messages c1 !! i = Some m) as Hm1.
  { simpl. unfold msgs1. rewrite inserted_before by lia. done. }
  assert (length (messages c1) = length (messages c) + 1) as Hlen1
    by (simpl; unfold msgs1; apply inserted_length; lia).
  set (msgs2 := take (i + 1) (messages c) ++ reply :: reply :: drop (i + 1) (messages c)).
  assert (take (i + 1) msgs1 ++ reply :: drop (i + 1) msgs1 = msgs2) as Hmsgs2.
  { unfold msgs1, msgs2.
    rewrite take_app_length' by (rewrite length_take_le; lia).
    by rewrite drop_app_length' by (rewrite length_take_le; lia). }
  assert (username w1 = username w) as Hu.
  { pose proof (ask_openai_cached_session (content m) w) as [= Hu _ _].
    unfold w1, save_chat_to_db.
    by destruct (database _ _). }
  set (w2 := save_chat_to_db (username w) {| title := title c; messages := msgs2 |}
               (set_current_messages msgs2 w1)).
  assert (show_chat_page fuel ev w1 = Done w2) as Hrun2.
  { unfold ev. rewrite (show_chat_page_ready fuel _ c1 w1 Hc1). simpl clicked_key.
    rewrite (render_chat_ask i m c1 fuel w1) by (done || lia).
    rewrite (on_click_ask i m c1 w1 Hc1). rewrite Hhit. cbn [fst snd].
    fold reply. simpl messages. rewrite Hmsgs2, Hu. done. }
  exists w1, w2. split_and!; [done|done| | |].
  - unfold w2. by destruct (save_chat_to_db_frame (username w)
                {| title := title c; messages := msgs2 |}
                (set_current_messages msgs2 w1)) as [_ ->].
  - unfold current_messages, w2. rewrite current_chat_save.
    by rewrite (current_chat_set_current_messages msgs2 c1 w1 Hc1).
  - destruct (ask_openai_cached_storage (content m) w) as [[= Hups _ _] _].
    assert (length (upserts w1) = length (upserts w) + 1) as Hups1.
    { unfold w1, save_chat_to_db. fold asked in Hups.
      destruct (database _ _); simpl; rewrite length_app, Hups; simpl; lia. }
    unfold w2, save_chat_to_db.
    destruct (database _ _); simpl; rewrite length_app, Hups1; simpl; lia.
Qed.

End Chat_page_facts.

(** ** One-time codes *)

Section Codes.

Lemma verify_code_valid (now expiry : Z) (email code : string) (f : front) :
  verification_codes f !! email = Some (code, expiry) → (now ≤ expiry)%Z →
  verify_code now email code f
  = ((true, "Verified"), set_verification_codes (delete email (verification_codes f)) f).
Proof.
  intros Hcode Hnow. unfold verify_code. rewrite Hcode.
  destruct (Z.ltb_spec expiry now); [lia|]. by rewrite bool_decide_eq_true_2.
Qed.

Lemma verify_code_absent (now : Z) (email code : string) (f : front) :
  verification_codes f !! email = None →
  verify_code now email code f = ((false, "Invalid verification code"), f).
Proof. intros Hnone. unfold verify_code. by rewrite Hnone. Qed.

Lemma verify_code_invalid (now : Z) (email code : string) (f : front) :
  (∀ expiry, verification_codes f !! email = Some (code, expiry) → (expiry < now)%Z) →
  (verify_code now email code f).1.1 = false ∧ (verify_code now email code f).2 = f.
Proof.
  intros Hinv. unfold verify_code.
  destruct (verification_codes f !! email) as [[saved expiry]|] eqn:Hcode; [|done].
  destruct (Z.ltb_spec expiry now); [done|].
  case_bool_decide as Heq; [|done]. subst saved.
  specialize (Hinv expiry eq_refl). lia.
Qed.

Lemma verify_reset_code_valid (now expiry : Z) (email code : string) (f : front) :
  password_reset_codes f !! email = Some (code, expiry) → (now ≤ expiry)%Z →
  verify_reset_code now email code f
  = ((true, "Code verified"),
     set_password_reset_codes (delete email (password_reset_codes f)) f).
Proof.
  intros Hcode Hnow. unfold verify_reset_code. rewrite Hcode.
  destruct (Z.ltb_spec expiry now); [lia|]. by rewrite bool_decide_eq_true_2.
Qed.

Lemma verify_reset_code_invalid (now : Z) (email code : string) (f : front) :
  (∀ expiry, password_reset_codes f !! email = Some (code, expiry) → (expiry < now)%Z) →
  (verify_reset_code now email code f).1.1 = false
  ∧ (verify_reset_code now email code f).2 = f.
Proof.
  intros Hinv. unfold verify_reset_code.
  destruct (password_reset_codes f !! email) as [[saved expiry]|] eqn:Hcode; [|done].
  destruct (Z.ltb_spec expiry now); [done|].
  case_bool_decide as Heq; [|done]. subst saved.
  specialize (Hinv expiry eq_refl). lia.
Qed.

Lemma send_verification_code_stored (o : outside) (code : string) (now : Z)
    (email : string) (s : front * world) :
  verification_codes (send_verification_code o code now email s).2.1
  = <[email := (code, (now + minutes 5)%Z)]> (verification_codes s.1).
Proof.
  destruct s as [f w]. unfold send_verification_code, send_email.
  by destruct (relay o _ _ _).
Qed.

Lemma send_password_reset_code_stored (o : outside) (code : string) (now : Z)
    (email : string) (s : front * world) :
  password_reset_codes (send_password_reset_code o code now email s).2.1
  = <[email := (code, (now + minutes 10)%Z)]> (password_reset_codes s.1).
Proof.
  destruct s as [f w]. unfold send_password_reset_code, send_email.
  by destruct (relay o _ _ _).
Qed.

(** X7.  A code passes [verify_code] exactly when it is the code kept for
    that email address and the clock is not past its expiry (the instant
    of expiry itself still passes); likewise for [verify_reset_code]. *)
Theorem code_passes_iff (now : Z) (email code : string) (f : front) :
  ((verify_code now email code f).1.1 = true
   ↔ ∃ expiry, verification_codes f !! email = Some (code, expiry) ∧ (now ≤ expiry)%Z)
  ∧ ((verify_reset_code now email code f).1.1 = true
     ↔ ∃ expiry, password_reset_codes f !! email = Some (code, expiry) ∧ (now ≤ expiry)%Z).
Proof.
  split; split.
  - intros Hok.
    destruct (verification_codes f !! email) as [[saved expiry]|] eqn:Hcode.
    + destruct (decide (code = saved ∧ (now ≤ expiry)%Z)) as [[-> ?]|Hno];
        [by exists expiry|].
      destruct (verify_code_invalid now email code f) as [Hfalse _]; [|congruence].
      intros expiry' Hc'. rewrite Hcode in Hc'. injection Hc' as <- <-.
      destruct (Z.lt_ge_cases expiry now); [done|]. destruct Hno. split; [done|lia].
    + by rewrite verify_code_absent in Hok.
  - intros (expiry & Hcode & Hnow). by rewrite (verify_code_valid now expiry).
  - intros Hok.
    destruct (password_reset_codes f !! email) as [[saved expiry]|] eqn:Hcode.
    + destruct (decide (code = saved ∧ (now ≤ expiry)%Z)) as [[-> ?]|Hno];
        [by exists expiry|].
      destruct (verify_reset_code_invalid now email code f) as [Hfalse _]; [|congruence].
      intros expiry' Hc'. rewrite Hcode in Hc'. injection Hc' as <- <-.
      destruct (Z.lt_ge_cases expiry now); [done|]. destruct Hno. split; [done|lia].
    + unfold verify_reset_code in Hok. by rewrite Hcode in Hok.
  - intros (expiry & Hcode & Hnow). by rewrite (verify_reset_code_valid now expiry).
Qed.

(** X8.  A verification code works once.  Within five minutes of
    [send_verification_code] the code sent passes, also when the mail
    could not be sent (the code is kept before the mail goes out); once
    it has passed, no code passes for that address, the same one
    included, until another is sent. *)
Theorem verification_code_works_once (o : outside) (code : string) (now now' : Z)
    (email : string) (s : front * world) :
  (now' ≤ now + minutes 5)%Z →
  let f1 := (send_verification_code o code now email s).2.1 in
  (verify_code now' email code f1).1 = (true, "Verified")
  ∧ ∀ now'' code',
      (verify_code now'' email code' (verify_code now' email code f1).2).1
      = (false, "Invalid verification code").
Proof.
  intros Hnow f1.
  assert (verification_codes f1 !! email = Some (code, (now + minutes 5)%Z)) as Hcode
    by (unfold f1; by rewrite send_verification_code_stored, lookup_insert_eq).
  rewrite (verify_code_valid now' _ email code f1 Hcode Hnow). split; [done|].
  intros now'' code'. rewrite verify_code_absent; [done|]. simpl.
  apply lookup_delete_eq.
Qed.

(** X9.  Past its five minutes a verification code is dead: every code
    typed for that address, the one that was sent included, is answered
    "Verification code expired", and the expired code is not removed, so
    the answer stays the same at every later instant. *)
Theorem expired_code_stays_expired (o : outside) (code : string) (now now' : Z)
    (email : string) (s : front * world) :
  (now + minutes 5 < now')%Z →
  let f1 := (send_verification_code o code now email s).2.1 in
  ∀ now'' code', (now' ≤ now'')%Z →
    verify_code now'' email code' f1 = ((false, "Verification code expired"), f1).
Proof.
  intros Hnow f1 now'' code' Hlater.
  assert (verification_codes f1 !! email = Some (code, (now + minutes 5)%Z)) as Hcode
    by (unfold f1; by rewrite send_verification_code_stored, lookup_insert_eq).
  unfold verify_code. rewrite Hcode.
  destruct (Z.ltb_spec (now + minutes 5) now''); [done|lia].
Qed.

(** X10.  Wrong guesses cost nothing: whatever codes other than the kept
    one are tried for an address, at whatever instants and however many,
    the session is left as it was, so the kept code still passes
    afterwards if it has not expired.  Nothing limits the number of
    tries. *)
Theorem wrong_guesses_change_nothing (email code : string) (expiry : Z)
    (guesses : list (Z * string)) (f : front) :
  verification_codes f !! email = Some (code, expiry) →
  Forall (λ guess, guess.2 ≠ code) guesses →
  foldl (λ f0 guess, (verify_code guess.1 email guess.2 f0).2) f guesses = f
  ∧ Forall (λ guess, (verify_code guess.1 email guess.2 f).1.1 = false) guesses.
Proof.
  intros Hcode Hwrong. induction Hwrong as [|guess guesses Hguess Hwrong [IH1 IH2]];
    [done|].
  destruct (verify_code_invalid guess.1 email guess.2 f) as [Hfalse Hsame].
  { intros expiry' Hc'. rewrite Hcode in Hc'. injection Hc' as Heq _.
    by destruct Hguess. }
  split; [simpl; by rewrite Hsame|by constructor].
Qed.

(** X11.  Sending a code again replaces the one sent before: the earlier
    code no longer passes, even within its own five minutes, and the
    later one has five minutes from its own sending. *)
Theorem resent_code_replaces (o1 o2 : outside) (code1 code2 : string) (now1 now2 now' : Z)
    (email : string) (s : front * world) :
  code1 ≠ code2 → (now' ≤ now2 + minutes 5)%Z →
  let s1 := (send_verification_code o1 code1 now1 email s).2 in
  let f2 := (send_verification_code o2 code2 now2 email s1).2.1 in
  (∀ now'', (verify_code now'' email code1 f2).1.1 = false)
  ∧ (verify_code now' email code2 f2).1 = (true, "Verified").
Proof.
  intros Hne Hnow s1 f2.
  assert (verification_codes f2 !! email = Some (code2, (now2 + minutes 5)%Z)) as Hcode
    by (unfold f2; by rewrite send_verification_code_stored, lookup_insert_eq).
  split.
  - intros now''. apply verify_code_invalid. intros expiry Hc.
    rewrite Hcode in Hc. injection Hc as Heq _. by destruct Hne.
  - by rewrite (verify_code_valid now' _ email code2 f2 Hcode Hnow).
Qed.

(** X12.  A password reset code has ten minutes and works once: within
    ten minutes of [send_password_reset_code] the code sent passes and
    is then gone; past ten minutes every code for that address is
    answered "Reset code expired". *)
Theorem reset_code_ten_minutes (o : outside) (code : string) (now now' : Z)
    (email : string) (s : front * world) :
  let f1 := (send_password_reset_code o code now email s).2.1 in
  ((now' ≤ now + minutes 10)%Z →
     (verify_reset_code now' email code f1).1 = (true, "Code verified")
     ∧ ∀ now'' code',
         (verify_reset_code now'' email code' (verify_reset_code now' email code f1).2).1
         = (false, "Invalid reset code"))
  ∧ ((now + minutes 10 < now')%Z →
       ∀ code', verify_reset_code now' email code' f1
                = ((false, "Reset code expired"), f1)).
Proof.
  intros f1.
  assert (password_reset_codes f1 !! email = Some (code, (now + minutes 10)%Z)) as Hcode
    by (unfold f1; by rewrite send_password_reset_code_stored, lookup_insert_eq).
  split.
  - intros Hnow. rewrite (verify_reset_code_valid now' _ email code f1 Hcode Hnow).
    split; [done|]. intros now'' code'. unfold verify_reset_code. simpl.
    by rewrite lookup_delete_eq.
  - intros Hnow code'. unfold verify_reset_code. rewrite Hcode.
    destruct (Z.ltb_spec (now + minutes 10) now'); [done|lia].
Qed.

End Codes.

(** ** Signing up and resetting a password *)

Section Account_flows.

(** X13.  Without a code that passes, "Verify" reaches nobody: no sign-up
    request, no mail, no log entry goes out, the session is as it was,
    and the page only shows why (the code is invalid or has expired). *)
Theorem no_sign_up_without_valid_code (o : outside) (now : Z)
    (email password code : string) (f : front) (w : world) :
  (∀ expiry, verification_codes f !! email = Some (code, expiry) → (expiry < now)%Z) →
  ∃ msg,
    verify o now email password code (f, w) = (f, st_error msg w)
    ∧ (msg = "Invalid verification code" ∨ msg = "Verification code expired").
Proof.
  intros Hinv. unfold verify, verify_code.
  destruct (verification_codes f !! email) as [[saved expiry]|] eqn:Hcode.
  - destruct (Z.ltb_spec expiry now); [by eexists; split; [|right]|].
    case_bool_decide as Heq; [|by eexists; split; [|left]].
    subst saved. specialize (Hinv expiry eq_refl). lia.
  - by eexists; split; [|left].
Qed.

(** X14.  A sign-up that the auth service turns down uses up the code.
    With a code that passes, "Verify" sends the sign-up request; when no
    user comes back the page stays where it is, and the code is gone:
    typing it again, whatever the service would answer by then, gets
    "Invalid verification code" and sends no second request. *)
Theorem failed_sign_up_uses_up_the_code (o o' : outside) (now now' expiry : Z)
    (email password code : string) (f : front) (w : world) :
  verification_codes f !! email = Some (code, expiry) → (now ≤ expiry)%Z →
  sign_up o email password ≠ HasUser →
  let s1 := verify o now email password code (f, w) in
  calls s1.1 = calls f ++ [SignUp email password]
  ∧ page s1.1 = page f
  ∧ verification_codes s1.1 !! email = None
  ∧ verify o' now' email password code s1
    = (s1.1, st_error "Invalid verification code" s1.2).
Proof.
  intros Hcode Hnow Hfail s1.
  assert (verification_codes s1.1 !! email = None ∧ page s1.1 = page f
          ∧ calls s1.1 = calls f ++ [SignUp email password]) as (Hgone & Hpage & Hcalls).
  { unfold s1, verify. rewrite (verify_code_valid now expiry email code f Hcode Hnow).
    unfold supabase_sign_up.
    destruct (sign_up o email password) as [|message|e]; [done|..]; simpl;
      by rewrite lookup_delete_eq. }
  split_and!; [done..|].
  destruct s1 as [f1 w1]. unfold verify. simpl in Hgone.
  by rewrite (verify_code_absent now' email code f1 Hgone).
Qed.

(** X15.  With a code that passes and a sign-up that succeeds, "Verify"
    completes whatever happens to the log entry and to the welcome mail:
    the calls made are the sign-up, the log entry and the mail, in this
    order; the code is gone; the page becomes the login page. *)
Theorem sign_up_completes (o : outside) (now expiry : Z)
    (email password code : string) (f : front) (w : world) :
  verification_codes f !! email = Some (code, expiry) → (now ≤ expiry)%Z →
  sign_up o email password = HasUser →
  let s1 := verify o now email password code (f, w) in
  calls s1.1 = calls f ++ [ SignUp email password;
                            InsertActivity email "signup";
                            SendMail email WELCOME_EMAIL_SUBJECT (WELCOME_EMAIL_BODY email) ]
  ∧ page s1.1 = "login"
  ∧ verification_codes s1.1 !! email = None
  ∧ successes s1.1 = successes f ++ ["Account verified! You can now log in."].
Proof.
  intros Hcode Hnow Hok s1. unfold s1, verify.
  rewrite (verify_code_valid now expiry email code f Hcode Hnow).
  unfold supabase_sign_up, log_user_activity, send_email. rewrite Hok.
  destruct (insert_activity o email "signup"), (relay o email _ _); simpl;
    rewrite <- !app_assoc, lookup_delete_eq; done.
Qed.

(** X16.  On the reset page, without a reset code that passes, "Reset
    Password" reaches nobody: no password update goes out, the session
    is as it was, and the page only shows why. *)
Theorem no_password_update_without_valid_code (o : outside) (token : string) (now : Z)
    (email code new_password : string) (f : front) (w : world) :
  reset_step f = 2 → reset_email_temp f = Some email →
  (∀ expiry, password_reset_codes f !! email = Some (code, expiry) → (expiry < now)%Z) →
  ∃ msg,
    show_reset_password_page o token now (ResetPassword code new_password) (f, w)
    = Some (f, st_error msg w)
    ∧ (msg = "Invalid reset code" ∨ msg = "Reset code expired").
Proof.
  intros Hstep Hemail Hinv. unfold show_reset_password_page.
  rewrite Hstep, Hemail. simpl. unfold verify_reset_code.
  destruct (password_reset_codes f !! email) as [[saved expiry]|] eqn:Hcode.
  - destruct (Z.ltb_spec expiry now); [by eexists; split; [|right]|].
    case_bool_decide as Heq; [|by eexists; split; [|left]].
    subst saved. specialize (Hinv expiry eq_refl). lia.
  - by eexists; split; [|left].
Qed.

(** X17.  The two steps of a password reset.  In step 1, "Send Reset
    Code" for a non-empty address whose mail goes out keeps a code for
    ten minutes and opens step 2; there, within the ten minutes, that
    code and a new password send one password update (which carries the
    password only) and, when a user comes back, a log entry; the code is
    gone, the page becomes the login page and the step is 1 again. *)
Theorem password_reset_round (o1 o2 : outside) (token token' : string) (now now' : Z)
    (email new_password : string) (f : front) (w : world) :
  reset_step f = 1 → email ≠ "" →
  relay o1 email PASSWORD_RESET_EMAIL_SUBJECT (PASSWORD_RESET_EMAIL_BODY email token) = None →
  (now' ≤ now + minutes 10)%Z →
  update_user o2 new_password = HasUser →
  ∃ s1 s2,
    show_reset_password_page o1 token now (SendResetCode email) (f, w) = Some s1
    ∧ reset_step s1.1 = 2
    ∧ show_reset_password_page o2 token' now' (ResetPassword token new_password) s1 = Some s2
    ∧ calls s2.1 = calls f ++ [ SendMail email PASSWORD_RESET_EMAIL_SUBJECT
                                  (PASSWORD_RESET_EMAIL_BODY email token);
                                UpdateUser new_password;
                                InsertActivity email "password_reset" ]
    ∧ password_reset_codes s2.1 !! email = None
    ∧ page s2.1 = "login" ∧ reset_step s2.1 = 1.
Proof.
  intros Hstep Hemail Hsent Hnow Hok.
  destruct (insert_activity o2 email "password_reset") as [e|] eqn:Hlog;
    (eexists; eexists; split;
     [ unfold show_reset_password_page; rewrite Hstep; simpl;
       rewrite bool_decide_eq_false_2 by done;
       unfold send_password_reset_code, send_email; rewrite Hsent; reflexivity |];
     split; [done|]; split;
     [ unfold show_reset_password_page; simpl;
       rewrite (verify_reset_code_valid now' (now + minutes 10) email token);
         [|by simpl; rewrite lookup_insert_eq|done];
       unfold supabase_update_password, log_user_activity; rewrite Hok, Hlog;
       reflexivity |];
     simpl; rewrite <- !app_assoc, lookup_delete_eq; done).
Qed.

End Account_flows.

(** ** Signing in, and the chats of a user *)

Section Signing_in.
Context `{StrMethods}.

Lemma loaded_rows (rows acc : list chat) :
  foldl (λ chats row, chats ++ [{| title := title row; messages := messages row |}])
        acc rows
  = acc ++ rows.
Proof.
  revert acc. induction rows as [|row rows IH]; intros acc; simpl.
  - by rewrite app_nil_r.
  - rewrite IH, <- app_assoc. by destruct row.
Qed.

(** The form, on a chat that exists: the user's message and a reply are
    appended and the chat is saved once. *)
Lemma on_submit_saved (user_input : string) (c : chat) (w : world) :
  current_chat w = Some c →
  ∃ reply_message,
    let c' := {| title := title c;
                 messages := messages c ++ [user_message (strip user_input); reply_message] |} in
    current_chat (on_submit user_input w) = Some c'
    ∧ session (on_submit user_input w) = session (set_current_messages (messages c') w)
    ∧ saved (username w) c' w (on_submit user_input w).
Proof.
  intros Hc.
  destruct (STATIC_QA !! lower (strip user_input)) as [static_answer|] eqn:Hkey.
  - exists (static_message static_answer). cbv zeta.
    rewrite (on_submit_static user_input static_answer c w Hc Hkey). cbv zeta.
    split_and!.
    + rewrite current_chat_save. by apply current_chat_set_current_messages.
    + by destruct (save_chat_to_db_frame (username w)
        {| title := title c;
           messages := messages c ++ [user_message (strip user_input);
                                      static_message static_answer] |}
        (set_current_messages
           (messages c ++ [user_message (strip user_input);
                           static_message static_answer]) w)) as [-> _].
    + eapply saved_transfer; [| |apply save_chat_to_db_saved]; done.
  - exists (ai_message (ask_openai_cached (strip user_input) w).1). cbv zeta.
    rewrite (on_submit_dynamic user_input c w Hc Hkey). cbv zeta.
    set (asked := ask_openai_cached (strip user_input) w).
    set (msgs := messages c ++ _).
    split_and!.
    + rewrite current_chat_save. apply current_chat_set_current_messages.
      rewrite <- Hc. apply current_chat_session, ask_openai_cached_session.
    + destruct (save_chat_to_db_frame (username w)
        {| title := title c; messages := msgs |}
        (set_current_messages msgs asked.2)) as [-> _].
      apply session_set_current_messages, ask_openai_cached_session.
    + destruct (ask_openai_cached_storage (strip user_input) w) as [Hst Hdb].
      eapply saved_transfer; [| |apply save_chat_to_db_saved]; done.
Qed.

(** A whole run for a non-blank form, on a chat that exists. *)
Lemma show_chat_page_submit (user_input : string) (c : chat) (fuel : nat) (w : world) :
  current_chat w = Some c → strip user_input ≠ "" →
  length (messages c) + 2 < fuel →
  show_chat_page fuel (Submit user_input) w = Done (on_submit user_input w).
Proof.
  intros Hc Hnonblank Hfuel.
  rewrite (show_chat_page_ready fuel _ c w Hc).
  rewrite bool_decide_eq_true_2 by done. simpl clicked_key.
  destruct (on_submit_saved user_input c w Hc) as (reply & Hc' & _ & _).
  rewrite render_chat_idle; [done|].
  unfold current_messages. rewrite Hc'. simpl. rewrite length_app. simpl. lia.
Qed.

(** X18.  A sign-in that succeeds always leaves a chat to show.  The user
    is signed in under the email address, on the chat page, with the
    chats the database returned; when it returned none, or when loading
    them failed, with one new empty "Chat 1".  The first chat is the
    current one, and the next script run of the chat page completes. *)
Theorem login_opens_a_chat (o : outside) (email password : string)
    (f : front) (w : world) :
  email ≠ "" → password ≠ "" →
  sign_in_with_password o email password = HasUser →
  let s1 := login o email password (f, w) in
  let c := match select_chats o email with
           | Loaded (row :: _) => row
           | _ => first_chat
           end in
  logged_in s1.1 = true ∧ page s1.1 = "chat"
  ∧ username s1.2 = email
  ∧ current_chat s1.2 = Some c
  ∧ ∀ fuel, length (messages c) < fuel → show_chat_page fuel Rerun s1.2 = Done s1.2.
Proof.
  intros Hemail Hpassword Hok s1 c.
  assert (logged_in s1.1 = true ∧ page s1.1 = "chat" ∧ username s1.2 = email
          ∧ current_chat s1.2 = Some c) as (Hin & Hpage & Huser & Hc).
  { unfold s1, c, login, supabase_sign_in, log_user_activity, load_chats_from_db.
    rewrite !bool_decide_eq_false_2 by done. simpl. rewrite Hok.
    destruct (insert_activity o email "login");
      destruct (select_chats o email) as [[|row rows]|e];
      rewrite ?loaded_rows; simpl; unfold current_chat; simpl;
      by rewrite lookup_insert_eq. }
  split_and!; [done..|].
  intros fuel Hfuel. rewrite (show_chat_page_ready fuel _ c _ Hc). simpl.
  rewrite render_chat_idle; [done|]. unfold current_messages. by rewrite Hc.
Qed.

(** X19.  A sign-in that fails signs nobody in.  With an empty email
    address or password nothing is sent to the auth service; when the
    service returns no user or raises, the request has gone out; in
    every case the visitor stays signed out on the same page, and the
    world gains one error notice and nothing else. *)
Theorem failed_login_changes_nothing (o : outside) (email password : string)
    (f : front) (w : world) :
  email = "" ∨ password = "" ∨ sign_in_with_password o email password ≠ HasUser →
  let s1 := login o email password (f, w) in
  logged_in s1.1 = logged_in f ∧ page s1.1 = page f
  ∧ (∃ msg, s1.2 = st_error msg w)
  ∧ (email = "" ∨ password = "" → s1.1 = f).
Proof.
  intros Hfail s1. unfold s1, login, supabase_sign_in.
  destruct (decide (email = "")) as [->|Hemail].
  { simpl. split_and!; [done|done|by eexists|done]. }
  destruct (decide (password = "")) as [->|Hpassword].
  { rewrite (bool_decide_eq_false_2 (email = "")) by done. simpl.
    split_and!; [done|done|by eexists|done]. }
  rewrite !bool_decide_eq_false_2 by done. simpl.
  destruct Hfail as [?|[?|Hfail]]; [done..|].
  destruct (sign_in_with_password o email password) as [|message|e]; [done|..];
    (split_and!; [done|done|by eexists|by intros [?|?]]).
Qed.

(** X20.  When the chats cannot be loaded at sign-in, the user gets a new
    empty "Chat 1", and the first message sent in it is saved under
    (email, "Chat 1"): if the database accepts the upsert, that row then
    holds the two new messages only, whatever transcript it held
    before. *)
Theorem failed_load_then_message_replaces_chat_1 (o : outside) (e : string)
    (email password user_input : string) (fuel : nat) (f : front) (w : world) :
  email ≠ "" → password ≠ "" →
  sign_in_with_password o email password = HasUser →
  select_chats o email = LoadRaises e →
  strip user_input ≠ "" → 2 < fuel →
  database w (length (upserts w)) = None →
  let w1 := (login o email password (f, w)).2 in
  ∃ w2 reply_message,
    show_chat_page fuel (Submit user_input) w1 = Done w2
    ∧ user_chats w2 !! (email, "Chat 1")
      = Some [user_message (strip user_input); reply_message].
Proof.
  intros Hemail Hpassword Hok Hload Hnonblank Hfuel Hdb w1.
  assert (current_chat w1 = Some first_chat ∧ username w1 = email
          ∧ upserts w1 = upserts w ∧ database w1 = database w)
    as (Hc & Huser & Hups & Hdb1).
  { unfold w1, login, supabase_sign_in, log_user_activity, load_chats_from_db.
    rewrite !bool_decide_eq_false_2 by done. simpl. rewrite Hok, Hload.
    destruct (insert_activity o email "login") as [e'|]; simpl;
      unfold current_chat; simpl; by rewrite lookup_insert_eq. }
  destruct (on_submit_saved user_input first_chat w1 Hc) as (reply & _ & _ & _ & Hsaved).
  exists (on_submit user_input w1), reply. split.
  - apply (show_chat_page_submit user_input first_chat); [done|done|simpl; lia].
  - rewrite Hdb1, Hups, Hdb, Huser in Hsaved. destruct Hsaved as [-> _].
    by rewrite lookup_insert_eq.
Qed.

Lemma chat_title_inj (n m : nat) :
  "Chat " +:+ pretty n = "Chat " +:+ pretty m → n = m.
Proof. intros Heq. by apply (inj (String.app "Chat ")), (inj pretty) in Heq. Qed.

Lemma numbered_NoDup (chats : list chat) :
  numbered chats → NoDup (map title chats).
Proof.
  unfold numbered. intros ->. apply NoDup_fmap_2; [|apply NoDup_seq].
  intros n m. apply chat_title_inj.
Qed.

Lemma numbered_fresh (chats : list chat) :
  numbered chats → "Chat " +:+ pretty (length chats + 1) ∉ map title chats.
Proof.
  unfold numbered. intros -> Hin.
  apply list_elem_of_fmap in Hin as (n & Heq & Hn).
  apply chat_title_inj in Heq. subst n.
  apply elem_of_seq in Hn. lia.
Qed.

Lemma new_chat_current (chats : list chat) (w : world) :
  users w !! username w = Some chats →
  let fresh_chat := {| title := "Chat " +:+ pretty (length chats + 1); messages := [] |} in
  users (new_chat w) !! username (new_chat w) = Some (chats ++ [fresh_chat])
  ∧ current_chat (new_chat w) = Some fresh_chat
  ∧ current_chat_index (new_chat w) = Some (length chats)
  ∧ username (new_chat w) = username w
  ∧ storage (new_chat w) = storage w ∧ database (new_chat w) = database w.
Proof.
  intros Hchats fresh_chat. unfold new_chat. rewrite Hchats. simpl.
  unfold current_chat. simpl. rewrite lookup_insert_eq. simpl.
  rewrite length_app. simpl.
  replace (length chats + 1 - 1) with (length chats) by lia.
  split_and!; try done.
  rewrite lookup_app_r by lia. by rewrite Nat.sub_diag.
Qed.

(** X21.  "New Chat" keeps the titles apart.  When the chats of the user
    are titled "Chat 1" to "Chat n" in this order, the new chat is
    "Chat n+1", it is empty and it is the current one, the earlier chats
    are as they were, and the titles are again numbered in order, so no
    two chats share a title. *)
Theorem new_chat_keeps_titles_apart (chats : list chat) (w : world) :
  users w !! username w = Some chats → numbered chats →
  let fresh_chat := {| title := "Chat " +:+ pretty (length chats + 1); messages := [] |} in
  users (new_chat w) !! username (new_chat w) = Some (chats ++ [fresh_chat])
  ∧ current_chat (new_chat w) = Some fresh_chat
  ∧ numbered (chats ++ [fresh_chat])
  ∧ NoDup (map title (chats ++ [fresh_chat])).
Proof.
  intros Hchats Hnum fresh_chat.
  destruct (new_chat_current chats w Hchats) as (Husers & Hc & _).
  assert (numbered (chats ++ [fresh_chat])) as Hnum'.
  { unfold numbered in *. rewrite map_app, length_app, seq_app, map_app, Hnum. simpl.
    by replace (S (length chats)) with (length chats + 1) by lia. }
  split_and!; [done..|]. by apply numbered_NoDup.
Qed.

(** X22.  The first message in a new chat is saved under a row of its
    own.  With the chats titled "Chat 1" to "Chat n", after "New Chat"
    and a message sent through the form, an accepted upsert writes the
    row of "Chat n+1" with the two new messages and leaves every other
    row of the table, the rows of the earlier chats included, as it
    was. *)
Theorem new_chat_saved_in_own_row (chats : list chat) (user_input : string)
    (fuel : nat) (w : world) :
  users w !! username w = Some chats → numbered chats →
  strip user_input ≠ "" → 2 < fuel →
  database w (length (upserts w)) = None →
  ∃ w2 reply_message,
    show_chat_page fuel (Submit user_input) (new_chat w) = Done w2
    ∧ user_chats w2
      = <[(username w, "Chat " +:+ pretty (length chats + 1))
          := [user_message (strip user_input); reply_message]]> (user_chats w)
    ∧ ∀ c, c ∈ chats →
        user_chats w2 !! (username w, title c) = user_chats w !! (username w, title c).
Proof.
  intros Hchats Hnum Hnonblank Hfuel Hdb.
  destruct (new_chat_current chats w Hchats) as (_ & Hc & _ & Hu & [= Hups Htab _] & Hdb1).
  destruct (on_submit_saved user_input _ (new_chat w) Hc) as (reply & _ & _ & Hsaved).
  unfold saved in Hsaved.
  rewrite Hdb1, Hups, Hdb, Hu, Htab in Hsaved. cbn [title messages app] in Hsaved.
  destruct Hsaved as [_ [Hrow _]].
  exists (on_submit user_input (new_chat w)), reply. split_and!.
  - apply (show_chat_page_submit user_input _ fuel (new_chat w) Hc); [done|simpl; lia].
  - done.
  - intros c Hin. rewrite Hrow. apply lookup_insert_ne. intros [= Heq].
    apply (numbered_fresh chats Hnum). rewrite Heq.
    by apply (list_elem_of_fmap_2 title).
Qed.

(** X23.  When the titles are not numbered in order the new title can be
    taken already, and then the new chat is saved over the older one.
    If a chat of the user is titled "Chat n+1", n being the number of
    chats (for instance with two chats, titled "Chat 1" and "Chat 3"),
    "New Chat" makes
    a second chat of that title; the first message sent in it is saved
    under the same row, which then holds the two new messages instead of
    the older chat's transcript, while the session still shows the older
    chat with its messages. *)
Theorem new_chat_can_overwrite_a_stored_chat (chats : list chat) (old : chat)
    (user_input : string) (fuel : nat) (w : world) :
  users w !! username w = Some chats →
  old ∈ chats → title old = "Chat " +:+ pretty (length chats + 1) →
  strip user_input ≠ "" → 2 < fuel →
  database w (length (upserts w)) = None →
  ∃ w2 reply_message,
    show_chat_page fuel (Submit user_input) (new_chat w) = Done w2
    ∧ user_chats w2 !! (username w, title old)
      = Some [user_message (strip user_input); reply_message]
    ∧ ∃ chats2, users w2 !! username w = Some chats2 ∧ old ∈ chats2.
Proof.
  intros Hchats Hold Htitle Hnonblank Hfuel Hdb.
  destruct (new_chat_current chats w Hchats)
    as (Husers & Hc & Hci & Hu & [= Hups Htab _] & Hdb1).
  destruct (on_submit_saved user_input _ (new_chat w) Hc)
    as (reply & _ & Hsession & Hsaved).
  unfold saved in Hsaved.
  rewrite Hdb1, Hups, Hdb, Hu, Htab in Hsaved. cbn [title messages app] in Hsaved.
  destruct Hsaved as [_ [Hrow _]].
  exists (on_submit user_input (new_chat w)), reply. split_and!.
  - apply (show_chat_page_submit user_input _ fuel (new_chat w) Hc); [done|simpl; lia].
  - rewrite Hrow, Htitle. apply lookup_insert_eq.
  - apply list_elem_of_lookup in Hold as [j Hj].
    pose proof (lookup_lt_Some _ _ _ Hj) as Hlt.
    pose proof (f_equal snd Hsession) as Hus.
    cbn [session snd messages] in Hus.
    destruct (set_current_messages_elsewhere
                ([] ++ [user_message (strip user_input); reply]) (new_chat w))
      as [_ Hmine].
    destruct (Hmine _ (length chats) j Husers Hci) as (chats2 & Hchats2 & Hsame); [lia|].
    rewrite <- Hus, Hu in Hchats2.
    exists chats2. split; [done|].
    apply list_elem_of_lookup. exists j. rewrite Hsame.
    by apply lookup_app_l_Some.
Qed.

End Signing_in.

(** ** The further properties on concrete runs *)

Lemma other_buttons_only_notify_witness :
  show_chat_page 5 (Click "Ask Your Peers_1") (answered echo db_up)
  = Done (set_notices [Info "You clicked 'Ask Your Peers'"] (answered echo db_up)).
Proof.
  exact (other_buttons_only_notify "Ask Your Peers" 1 (static_message (answer first_pair))
           _ 5 (answered echo db_up)
           ltac:(repeat constructor) ltac:(discriminate)
           (answered_current_chat echo db_up) eq_refl eq_refl eq_refl
           ltac:(simpl; lia)).
Defined.

Lemma blank_submission_ignored_witness :
  show_chat_page 5 (Submit "   ") (fresh echo db_up) = Done (fresh echo db_up).
Proof.
  exact (blank_submission_ignored "   " _ 5 (fresh echo db_up)
           (fresh_current_chat echo db_up) eq_refl ltac:(simpl; lia)).
Defined.

Lemma cached_answer_stays_witness :
  let w' := default greeted (script_runs 5 [Submit "Hello"; Submit "Hi"] greeted) in
  ask_openai_cached "Hi" w' = ("Hello!", w').
Proof.
  apply (cached_answer_stays "Hi" "Hello!" 5 [Submit "Hello"; Submit "Hi"] greeted).
  - by eexists.
  - reflexivity.
  - vm_compute. reflexivity.
Defined.

Lemma overload_message_is_cached_witness :
  let w1 := (ask_openai_cached "Hi" (fresh throttled db_up)).2 in
  let w' := default w1 (script_runs 5 [Submit "Anyone there?"] w1) in
  ask_openai_cached "Hi" w' = (too_many_requests, w').
Proof.
  apply (overload_message_is_cached "Hi" 5 [Submit "Anyone there?"] (fresh throttled db_up)).
  - by eexists.
  - reflexivity.
  - apply throttled_throttles.
  - vm_compute. reflexivity.
Defined.

Lemma aye_current_chat :
  current_chat aye
  = Some {| title := "Chat 1";
            messages := [ user_message "Ready?"; static_message "Aye";
                          user_message "Thanks" ] |}.
Proof. reflexivity. Qed.


Lemma repeated_follow_up_duplicates_witness :
  let reply := ai_message "Re: Aye" in
  ∃ w1 w2,
    show_chat_page 6 (Click "Ask OpenAI_1") aye = Done w1
    ∧ show_chat_page 6 (Click "Ask OpenAI_1") w1 = Done w2
    ∧ completions w2 = completions w1
    ∧ current_messages w2
      = [ user_message "Ready?"; static_message "Aye"; reply; reply;
          user_message "Thanks" ]
    ∧ length (upserts w2) = 2.
Proof.
  exact (repeated_follow_up_duplicates 1 (static_message "Aye") _ 6 aye
           aye_current_chat eq_refl eq_refl eq_refl ltac:(simpl; lia)).
Defined.

Lemma code_sent_kept :
  verification_codes code_sent.1 !! "ann@example.com" = Some ("a1b2c3", minutes 5).
Proof. vm_compute. reflexivity. Qed.

(** The relay was down, the code is kept all the same, and it passes at
    the very instant it expires. *)
Lemma verification_code_works_once_witness :
  (verify_code (minutes 5) "ann@example.com" "a1b2c3" code_sent.1).1 = (true, "Verified")
  ∧ ∀ now'' code',
      (verify_code now'' "ann@example.com" code'
         (verify_code (minutes 5) "ann@example.com" "a1b2c3" code_sent.1).2).1
      = (false, "Invalid verification code").
Proof.
  exact (verification_code_works_once relay_down "a1b2c3" 0 (minutes 5)
           "ann@example.com" visitor ltac:(unfold minutes; lia)).
Defined.

(** A microsecond late, and an hour late, the code that was sent is
    answered as expired. *)
Lemma expired_code_stays_expired_witness :
  verify_code (minutes 5 + 1) "ann@example.com" "a1b2c3" code_sent.1
  = ((false, "Verification code expired"), code_sent.1)
  ∧ verify_code (minutes 60) "ann@example.com" "a1b2c3" code_sent.1
    = ((false, "Verification code expired"), code_sent.1).
Proof.
  split.
  - exact (expired_code_stays_expired relay_down "a1b2c3" 0 (minutes 5 + 1)
             "ann@example.com" visitor ltac:(unfold minutes; lia)
             (minutes 5 + 1)%Z "a1b2c3" ltac:(unfold minutes; lia)).
  - exact (expired_code_stays_expired relay_down "a1b2c3" 0 (minutes 5 + 1)
             "ann@example.com" visitor ltac:(unfold minutes; lia)
             (minutes 60) "a1b2c3" ltac:(unfold minutes; lia)).
Defined.

Lemma wrong_guesses_change_nothing_witness :
  foldl (λ f0 guess, (verify_code guess.1 "ann@example.com" guess.2 f0).2)
        code_sent.1 [(1%Z, "000000"); (2%Z, "ffffff")]
  = code_sent.1
  ∧ Forall (λ guess, (verify_code guess.1 "ann@example.com" guess.2 code_sent.1).1.1 = false)
           [(1%Z, "000000"); (2%Z, "ffffff")].
Proof.
  apply (wrong_guesses_change_nothing "ann@example.com" "a1b2c3" (minutes 5)).
  - exact code_sent_kept.
  - repeat constructor; discriminate.
Defined.

Lemma resent_code_replaces_witness :
  let f2 := (send_verification_code all_well "0f0f0f" (minutes 3) "ann@example.com"
               code_sent).2.1 in
  (∀ now'', (verify_code now'' "ann@example.com" "a1b2c3" f2).1.1 = false)
  ∧ (verify_code (minutes 8) "ann@example.com" "0f0f0f" f2).1 = (true, "Verified").
Proof.
  exact (resent_code_replaces relay_down all_well "a1b2c3" "0f0f0f" 0 (minutes 3)
           (minutes 8) "ann@example.com" visitor ltac:(discriminate)
           ltac:(unfold minutes; lia)).
Defined.

(** The reset code passes at the very instant it expires, and is answered
    as expired a microsecond later. *)
Lemma reset_code_ten_minutes_witness :
  let f1 := (send_password_reset_code all_well "d4e5f6" 0 "ann@example.com" visitor).2.1 in
  (verify_reset_code (minutes 10) "ann@example.com" "d4e5f6" f1).1 = (true, "Code verified")
  ∧ verify_reset_code (minutes 10 + 1) "ann@example.com" "d4e5f6" f1
    = ((false, "Reset code expired"), f1).
Proof.
  split.
  - exact (proj1 (proj1 (reset_code_ten_minutes all_well "d4e5f6" 0 (minutes 10)
                           "ann@example.com" visitor)
                        ltac:(unfold minutes; lia))).
  - exact (proj2 (reset_code_ten_minutes all_well "d4e5f6" 0 (minutes 10 + 1)
                    "ann@example.com" visitor)
                 ltac:(unfold minutes; lia) "d4e5f6").
Defined.

(** The code has expired: "Verify" only says so. *)
Lemma no_sign_up_without_valid_code_witness :
  ∃ msg,
    verify all_well (minutes 6) "ann@example.com" "secret" "a1b2c3"
      (code_sent.1, code_sent.2)
    = (code_sent.1, st_error msg code_sent.2)
    ∧ (msg = "Invalid verification code" ∨ msg = "Verification code expired").
Proof.
  apply (no_sign_up_without_valid_code all_well (minutes 6) "ann@example.com" "secret"
           "a1b2c3" code_sent.1 code_sent.2).
  intros expiry Hkept. rewrite code_sent_kept in Hkept. injection Hkept as <-.
  unfold minutes. lia.
Defined.

Lemma failed_sign_up_uses_up_the_code_witness :
  let s1 := verify auth_refuses 1 "ann@example.com" "pw" "a1b2c3"
              (code_sent.1, code_sent.2) in
  calls s1.1 = calls code_sent.1 ++ [SignUp "ann@example.com" "pw"]
  ∧ page s1.1 = page code_sent.1
  ∧ verification_codes s1.1 !! "ann@example.com" = None
  ∧ verify all_well 2 "ann@example.com" "pw" "a1b2c3" s1
    = (s1.1, st_error "Invalid verification code" s1.2).
Proof.
  apply (failed_sign_up_uses_up_the_code auth_refuses all_well 1 2 (minutes 5)
           "ann@example.com" "pw" "a1b2c3" code_sent.1 code_sent.2).
  - exact code_sent_kept.
  - unfold minutes. lia.
  - discriminate.
Defined.

Lemma sign_up_completes_witness :
  let s1 := verify all_well 1 "ann@example.com" "secret" "a1b2c3"
              (code_sent.1, code_sent.2) in
  calls s1.1
  = calls code_sent.1
    ++ [ SignUp "ann@example.com" "secret";
         InsertActivity "ann@example.com" "signup";
         SendMail "ann@example.com" WELCOME_EMAIL_SUBJECT
           (WELCOME_EMAIL_BODY "ann@example.com") ]
  ∧ page s1.1 = "login"
  ∧ verification_codes s1.1 !! "ann@example.com" = None
  ∧ successes s1.1 = successes code_sent.1 ++ ["Account verified! You can now log in."].
Proof.
  apply (sign_up_completes all_well 1 (minutes 5) "ann@example.com" "secret" "a1b2c3"
           code_sent.1 code_sent.2).
  - exact code_sent_kept.
  - unfold minutes. lia.
  - reflexivity.
Defined.

Lemma no_password_update_without_valid_code_witness :
  ∃ msg,
    show_reset_password_page all_well "777777" 1 (ResetPassword "000000" "new-secret")
      (reset_asked.1, reset_asked.2)
    = Some (reset_asked.1, st_error msg reset_asked.2)
    ∧ (msg = "Invalid reset code" ∨ msg = "Reset code expired").
Proof.
  apply (no_password_update_without_valid_code all_well "777777" 1 "ann@example.com"
           "000000" "new-secret" reset_asked.1 reset_asked.2).
  - reflexivity.
  - reflexivity.
  - intros expiry Hkept. vm_compute in Hkept. discriminate Hkept.
Defined.

Lemma password_reset_round_witness :
  ∃ s1 s2,
    show_reset_password_page all_well "d4e5f6" 0 (SendResetCode "ann@example.com") visitor
    = Some s1
    ∧ reset_step s1.1 = 2
    ∧ show_reset_password_page all_well "777777" (minutes 10)
        (ResetPassword "d4e5f6" "new-secret") s1 = Some s2
    ∧ calls s2.1
      = calls visitor.1
        ++ [ SendMail "ann@example.com" PASSWORD_RESET_EMAIL_SUBJECT
               (PASSWORD_RESET_EMAIL_BODY "ann@example.com" "d4e5f6");
             UpdateUser "new-secret";
             InsertActivity "ann@example.com" "password_reset" ]
    ∧ password_reset_codes s2.1 !! "ann@example.com" = None
    ∧ page s2.1 = "login" ∧ reset_step s2.1 = 1.
Proof.
  apply (password_reset_round all_well all_well "d4e5f6" "777777" 0 (minutes 10)
           "ann@example.com" "new-secret" initial_front (fresh echo db_up)).
  - reflexivity.
  - discriminate.
  - reflexivity.
  - unfold minutes. lia.
  - reflexivity.
Defined.

(** Signing in when no chat is stored: a new "Chat 1" is shown. *)
Lemma login_opens_a_chat_witness :
  let s1 := login all_well "ann@example.com" "secret" (initial_front, fresh echo db_up) in
  logged_in s1.1 = true ∧ page s1.1 = "chat"
  ∧ username s1.2 = "ann@example.com"
  ∧ current_chat s1.2 = Some first_chat
  ∧ ∀ fuel, length (messages first_chat) < fuel →
      show_chat_page fuel Rerun s1.2 = Done s1.2.
Proof.
  apply (login_opens_a_chat all_well "ann@example.com" "secret" initial_front
           (fresh echo db_up)).
  - discriminate.
  - discriminate.
  - reflexivity.
Defined.

Lemma failed_login_changes_nothing_witness :
  let s1 := login auth_refuses "ann@example.com" "guess" (initial_front, fresh echo db_up) in
  logged_in s1.1 = false ∧ page s1.1 = "login"
  ∧ (∃ msg, s1.2 = st_error msg (fresh echo db_up))
  ∧ ("ann@example.com" = "" ∨ "guess" = "" → s1.1 = initial_front).
Proof.
  apply (failed_login_changes_nothing auth_refuses "ann@example.com" "guess" initial_front
           (fresh echo db_up)).
  right. right. discriminate.
Defined.

Lemma failed_load_then_message_replaces_chat_1_witness :
  let w1 := (login chats_unreachable "ann@example.com" "secret"
               (initial_front, fresh echo db_up)).2 in
  ∃ w2 reply_message,
    show_chat_page 5 (Submit "Hello") w1 = Done w2
    ∧ user_chats w2 !! ("ann@example.com", "Chat 1")
      = Some [user_message (strip "Hello"); reply_message].
Proof.
  apply (failed_load_then_message_replaces_chat_1 chats_unreachable "timeout"
           "ann@example.com" "secret" "Hello" 5 initial_front (fresh echo db_up)).
  - discriminate.
  - discriminate.
  - reflexivity.
  - reflexivity.
  - discriminate.
  - lia.
  - reflexivity.
Defined.

Lemma fresh_numbered : numbered [{| title := "Chat 1"; messages := [] |}].
Proof. reflexivity. Qed.

Lemma new_chat_keeps_titles_apart_witness :
  let w := fresh echo db_up in
  let chats := [{| title := "Chat 1"; messages := [] |}] in
  let fresh_chat := {| title := "Chat 2"; messages := [] |} in
  users (new_chat w) !! username (new_chat w) = Some (chats ++ [fresh_chat])
  ∧ current_chat (new_chat w) = Some fresh_chat
  ∧ numbered (chats ++ [fresh_chat])
  ∧ NoDup (map title (chats ++ [fresh_chat])).
Proof.
  exact (new_chat_keeps_titles_apart [{| title := "Chat 1"; messages := [] |}]
           (fresh echo db_up) eq_refl fresh_numbered).
Defined.

Lemma new_chat_saved_in_own_row_witness :
  let w := fresh echo db_up in
  ∃ w2 reply_message,
    show_chat_page 5 (Submit "Hello") (new_chat w) = Done w2
    ∧ user_chats w2
      = <[("Guest", "Chat 2") := [user_message (strip "Hello"); reply_message]]>
          (user_chats w)
    ∧ ∀ c, c ∈ [{| title := "Chat 1"; messages := [] |}] →
        user_chats w2 !! ("Guest", title c) = user_chats w !! ("Guest", title c).
Proof.
  assert (strip "Hello" ≠ "") as Hnonblank by discriminate.
  exact (new_chat_saved_in_own_row [{| title := "Chat 1"; messages := [] |}] "Hello" 5
           (fresh echo db_up) eq_refl fresh_numbered Hnonblank ltac:(lia) eq_refl).
Defined.

(** With "Chat 1" and "Chat 3" loaded, the new chat is a second "Chat 3". *)
Lemma new_chat_can_overwrite_a_stored_chat_witness :
  let old := {| title := "Chat 3";
                messages := [user_message "Any berth in Monaco?"] |} in
  ∃ w2 reply_message,
    show_chat_page 5 (Submit "Hello") (new_chat two_chats) = Done w2
    ∧ user_chats w2 !! ("Guest", "Chat 3")
      = Some [user_message (strip "Hello"); reply_message]
    ∧ ∃ chats2, users w2 !! "Guest" = Some chats2 ∧ old ∈ chats2.
Proof.
  assert (strip "Hello" ≠ "") as Hnonblank by discriminate.
  exact (new_chat_can_overwrite_a_stored_chat
           [ {| title := "Chat 1"; messages := [] |};
             {| title := "Chat 3"; messages := [user_message "Any berth in Monaco?"] |} ]
           {| title := "Chat 3"; messages := [user_message "Any berth in Monaco?"] |}
           "Hello" 5 two_chats eq_refl
           ltac:(repeat constructor) eq_refl Hnonblank ltac:(lia) eq_refl).
Defined.
